(** * namebench: the query queue, the CLI orchestrator and its report

A shallow embedding of [dnsqueue/dnsqueue.go], of the job creation of
[ui/ui.go] and of [runCliBenchmark] / [parseNameservers] of the main
package, with the properties the design document states about them.

Conventions.
- A Go [string] is a byte sequence: Rocq's [string], whose characters
  are the 256 values of [ascii].
- [time.Duration] and [int] are 64-bit; they are carried as [Z] and the
  wrap-around of [+=] on a [time.Duration] is written out ([wrap64]).
- [float64] values of the report are quotients of two integers; they
  are carried as exact rationals ([Q]), compared with [Qeq_bool] and
  [Qle_bool].  Every concrete value evaluated below (0, 1/2, 5, 11, 20)
  is a binary64 number, so no rounding is hidden in the examples.
- What belongs to Go's standard library or to [miekg/dns] and is not
  part of the repository is either written out from its documented
  behaviour ([strings.Split], [strings.TrimSpace], [sort.Strings]) or
  taken as a section variable ([dns.StringToType], [strconv.Quote], the
  network behind [Client.ExchangeContext]). *)

From Stdlib Require Import ZArith QArith Lqa Ascii String List Lia Permutation.
From Stdlib Require OrderedTypeEx.
From stdpp Require Import gmap strings list fin_maps sorting.

Import ListNotations.
Local Open Scope string_scope.
Local Open Scope list_scope.

(** ** Go's [strings] package, as far as [parseNameservers] uses it *)

Module GoStrings.

(** [strings.Split(s, sep)] for a one-byte separator: the substrings
    between the occurrences of [sep]; an input without [sep] (also the
    empty one) gives one element. *)
Fixpoint Split (s : string) (sep : ascii) : list string :=
  match s with
  | EmptyString => [EmptyString]
  | String c s' =>
      if Ascii.eqb c sep then EmptyString :: Split s' sep
      else match Split s' sep with
           | [] => [String c EmptyString]
           | p :: ps => String c p :: ps
           end
  end.

(** [strings.Contains(s, substr)]. *)
Definition Contains (s substr : string) : bool :=
  match index 0 substr s with
  | Some _ => true
  | None => false
  end.

Definition byte_is (c : ascii) (n : N) : bool := N.eqb (N_of_ascii c) n.

(** The table [asciiSpace] of package [strings]:
    ['\t'], ['\n'], ['\v'], ['\f'], ['\r'] and [' ']. *)
Definition asciiSpace (c : ascii) : bool :=
  let n := N_of_ascii c in
  (N.leb 9 n && N.leb n 13) || N.eqb n 32.

(** [unicode.IsSpace] on the code points that UTF-8 encodes in two bytes:
    U+0085 (NEL) and U+00A0 (NBSP). *)
Definition isSpace2 (b1 b2 : ascii) : bool :=
  byte_is b1 194 && (byte_is b2 133 || byte_is b2 160).

(** [unicode.IsSpace] on the code points encoded in three bytes:
    U+1680, U+2000..U+200A, U+2028, U+2029, U+202F, U+205F, U+3000. *)
Definition isSpace3 (b1 b2 b3 : ascii) : bool :=
  let n3 := N_of_ascii b3 in
  (byte_is b1 225 && byte_is b2 154 && byte_is b3 128)
  || (byte_is b1 226 && byte_is b2 128
      && ((N.leb 128 n3 && N.leb n3 138)
          || N.eqb n3 168 || N.eqb n3 169 || N.eqb n3 175))
  || (byte_is b1 226 && byte_is b2 129 && byte_is b3 159)
  || (byte_is b1 227 && byte_is b2 128 && byte_is b3 128).

(** Leading white space removed ([TrimLeftFunc(s, unicode.IsSpace)]):
    while the string starts with the encoding of a white-space code
    point, that encoding is dropped. *)
Fixpoint trimLeftSpace (s : string) : string :=
  match s with
  | EmptyString => s
  | String b1 r1 =>
      if asciiSpace b1 then trimLeftSpace r1
      else match r1 with
           | EmptyString => s
           | String b2 r2 =>
               if isSpace2 b1 b2 then trimLeftSpace r2
               else match r2 with
                    | EmptyString => s
                    | String b3 r3 =>
                        if isSpace3 b1 b2 b3 then trimLeftSpace r3 else s
                    end
           end
  end.

(** The same from the end, on the reversed byte sequence
    ([TrimRightFunc(s, unicode.IsSpace)]). *)
Fixpoint trimLeftSpaceRev (s : string) : string :=
  match s with
  | EmptyString => s
  | String b1 r1 =>
      if asciiSpace b1 then trimLeftSpaceRev r1
      else match r1 with
           | EmptyString => s
           | String b2 r2 =>
               if isSpace2 b2 b1 then trimLeftSpaceRev r2
               else match r2 with
                    | EmptyString => s
                    | String b3 r3 =>
                        if isSpace3 b3 b2 b1 then trimLeftSpaceRev r3 else s
                    end
           end
  end.

Definition reverse (s : string) : string :=
  string_of_list_ascii (List.rev (list_ascii_of_string s)).

(** [strings.TrimSpace(s)]: "all leading and trailing white space
    removed, as defined by Unicode"; first the leading, then the
    trailing one. *)
Definition TrimSpace (s : string) : string :=
  reverse (trimLeftSpaceRev (reverse (trimLeftSpace s))).

End GoStrings.

(** ** Package main: [parseNameservers] *)

Module Flags.
  Import GoStrings.

Definition defaultNameservers : list string :=
  ["8.8.8.8:53"; "1.1.1.1:53"; "9.9.9.9:53"].

Definition defaultDomains : list string :=
  ["google.com"; "cloudflare.com"; "amazon.com"; "wikipedia.org";
   "twitter.com"; "facebook.com"; "youtube.com"; "instagram.com";
   "linkedin.com"; "netflix.com"].

(** The body of the loop over [nsParts]: [parsed] after one element. *)
Definition parseStep (parsed : list string) (ns : string) : list string :=
  let ns := TrimSpace ns in
  if String.eqb ns "" then parsed
  else
    let ns := if negb (Contains ns ":") then (ns ++ ":53")%string else ns in
    parsed ++ [ns].

Definition parseNameservers (nsFlag : string) (defaultNS : list string)
  : list string :=
  if String.eqb nsFlag "" then defaultNS
  else
    let nsParts := Split nsFlag "," in
    let parsed := fold_left parseStep nsParts [] in
    if Nat.eqb (length parsed) 0 then defaultNS else parsed.

End Flags.

(** ** Package dnsqueue *)

Module dnsqueue.

(** A [context.Context] that is not nil. *)
Inductive context : Type :=
| Background
| Derived (id : nat).

(** An interface value of type [context.Context]: nil is [None]. *)
Abbreviation Context := (option context).

(** [Request] contains data for making a DNS request. *)
Record Request : Type := {
  Ctx : Context;
  Destination : string;
  RecordType : string;
  RecordName : string;
  VerifySignature : bool
}.

(** [Answer] contains a single answer returned by a DNS server
    (the field [String] of the source is [String_] here). *)
Record Answer : Type := {
  Ttl : Z;
  Name : string;
  String_ : string
}.

(** [Result] contains metadata relating to a set of DNS server results
    (the field [Request] of the source is [Req] here). *)
Record Result : Type := {
  Req : Request;
  Duration : Z;
  Answers : list Answer;
  Error : string
}.

(** *** What [SendQuery] uses of [miekg/dns] *)

(** [dns.Msg], as far as [SendQuery] fills it in: [SetEdns0(udpsize, do)]
    and [SetQuestion(name, type)]. *)
Record Msg : Type := {
  Edns0 : option (Z * bool);
  Question : option (string * Z)
}.

Definition new_Msg : Msg := {| Edns0 := None; Question := None |}.
Definition SetEdns0 (m : Msg) (udpsize : Z) (do : bool) : Msg :=
  {| Edns0 := Some (udpsize, do); Question := Question m |}.
Definition SetQuestion (m : Msg) (z : string) (t : Z) : Msg :=
  {| Edns0 := Edns0 m; Question := Some (z, t) |}.

(** A resource record of the answer section: [Header().Ttl],
    [Header().Name] and [String()]. *)
Record RR : Type := {
  Hdr_Ttl : Z;
  Hdr_Name : string;
  RR_String : string
}.

(** What [Client.ExchangeContext] returns, [(in, rtt, err)]: either a
    reply ([err == nil], then [in] is not nil and [in.Answer] is read)
    or an error with the time spent. *)
Inductive ExchangeReply : Type :=
| ExchangeOk (in_Answer : list RR) (rtt : Z)
| ExchangeFailed (rtt : Z) (exchangeErr : string).

(** The network as the program sees it: the exchanges made so far. *)
Record Exchange : Type := {
  ex_ctx : Context;
  ex_msg : Msg;
  ex_address : string
}.
Abbreviation Wire := (list Exchange).

Section Externals.

(** [dns.StringToType], the table from mnemonics to type codes. *)
Variable StringToType : string -> option Z.
(** [%q] of package [fmt] ([strconv.Quote]). *)
Variable Quote : string -> string.
(** The answer of the network to the [n]-th exchange of a run. *)
Variable network : nat -> Context -> Msg -> string -> ExchangeReply.

Definition ExchangeContext (ctx : Context) (m : Msg) (a : string)
    (w : Wire) : ExchangeReply * Wire :=
  (network (length w) ctx m a,
   w ++ [{| ex_ctx := ctx; ex_msg := m; ex_address := a |}]).

Definition toAnswer (rr : RR) : Answer :=
  {| Ttl := Hdr_Ttl rr; Name := Hdr_Name rr; String_ := RR_String rr |}.

(** [SendQuery] sends a DNS query, configured by a [Request] and
    controlled by a context; it returns [(result, err)] and the
    network after the call. *)
Definition SendQuery (ctx : Context) (request : Request) (w : Wire)
    : Result * option string * Wire :=
  match StringToType (RecordType request) with
  | None =>
      let err := ("invalid DNS record type " ++ Quote (RecordType request)
                  ++ " for domain " ++ RecordName request)%string in
      ({| Req := request; Duration := 0; Answers := []; Error := err |},
       Some err, w)
  | Some record_type =>
      let m := new_Msg in
      let m := if VerifySignature request then SetEdns0 m 4096 true
               else m in
      let m := SetQuestion m (RecordName request) record_type in
      let '(reply, w') := ExchangeContext ctx m (Destination request) w in
      match reply with
      | ExchangeFailed rtt exchangeErr =>
          let err := ("dns exchange failed for " ++ RecordName request
                      ++ " to " ++ Destination request
                      ++ " (record type " ++ RecordType request ++ "): "
                      ++ exchangeErr)%string in
          ({| Req := request; Duration := rtt; Answers := [];
              Error := err |}, Some err, w')
      | ExchangeOk in_Answer rtt =>
          ({| Req := request; Duration := rtt;
              Answers := fold_left (fun answers rr =>
                                      answers ++ [toAnswer rr])
                                   in_Answer [];
              Error := "" |}, None, w')
      end
  end.

(** *** The queue: two buffered channels and the worker goroutines *)

(** The request built by [Add]: a nil context is replaced. *)
Definition Add_request (ctx : Context) (dest record_type record_name : string)
    (verifySignature : bool) : Request :=
  let ctx := match ctx with
             | None => Some Background
             | Some c => Some c
             end in
  {| Ctx := ctx; Destination := dest; RecordType := record_type;
     RecordName := record_name; VerifySignature := verifySignature |}.

(** The context a worker passes to [SendQuery] for a request. *)
Definition ctxToUse (request : Request) : Context :=
  match Ctx request with
  | None => Some Background
  | Some c => Some c
  end.

(** A worker goroutine of [startWorker]: waiting at [range queue],
    holding the result it is about to send, or returned. *)
Inductive Worker : Type :=
| Ranging
| Sending (result : Result)
| Returned.

(** Where the goroutine that filled the queue stands: still sending
    requests, in the loop that reads the results, or past it. *)
Inductive Phase : Type :=
| Dispatching
| Collecting
| Finished.

(** The queue of [StartQueue(size, workers)]: two channels of capacity
    [size] (buffered: at least 1) and the worker goroutines; the goroutine
    that sends the requests [todo], closes the channel and then reads
    [expected] results into [currentNsResults] (the values behind the
    pointers it receives); the network; and, for the properties, the
    calls of [SendQuery] made so far. *)
Record State : Type := {
  size : nat;
  Requests : list Request;
  closed : bool;
  Results : list Result;
  workers : list Worker;
  todo : list Request;
  phase : Phase;
  expected : nat;
  answered : nat;
  currentNsResults : list Result;
  wire : Wire;
  calls : list (Context * Request)
}.

(** [StartQueue(size, workers)], and a caller about to submit [jobs]. *)
Definition StartQueue (size workers : nat) (jobs : list Request) : State :=
  {| size := size; Requests := []; closed := false; Results := [];
     workers := replicate workers Ranging;
     todo := jobs; phase := Dispatching; expected := length jobs;
     answered := 0; currentNsResults := [];
     wire := []; calls := [] |}.

(** The steps of the goroutines; the scheduler picks one. *)
Inductive Action : Type :=
| Submit
| SendCompletionSignal
| Serve (i : nat)
| Publish (i : nat)
| Return (i : nat)
| Receive
| Break.

(** One step, [None] when the goroutine cannot take it now (a send on
    a full channel or a receive on an empty one blocks). *)
Definition step (a : Action) (s : State) : option State :=
  match a with
  | Submit =>
      (* q.Requests <- req *)
      match phase s, todo s with
      | Dispatching, req :: rest =>
          if (length (Requests s) <? size s)%nat then
            Some {| size := size s; Requests := Requests s ++ [req];
                    closed := closed s; Results := Results s;
                    workers := workers s; todo := rest;
                    phase := phase s; expected := expected s;
                    answered := answered s;
                    currentNsResults := currentNsResults s;
                    wire := wire s; calls := calls s |}
          else None
      | _, _ => None
      end
  | SendCompletionSignal =>
      (* close(q.Requests), after the last request *)
      match phase s, todo s with
      | Dispatching, [] =>
          Some {| size := size s; Requests := Requests s;
                  closed := true; Results := Results s;
                  workers := workers s; todo := [];
                  phase := Collecting; expected := expected s;
                  answered := answered s;
                  currentNsResults := currentNsResults s;
                  wire := wire s; calls := calls s |}
      | _, _ => None
      end
  | Serve i =>
      (* request := <-queue; result, err := SendQuery(ctxToUse, request) *)
      match workers s !! i, Requests s with
      | Some Ranging, request :: rest =>
          let '(result, _, w') :=
            SendQuery (ctxToUse request) request (wire s) in
          Some {| size := size s; Requests := rest;
                  closed := closed s; Results := Results s;
                  workers := <[i := Sending result]> (workers s);
                  todo := todo s; phase := phase s;
                  expected := expected s; answered := answered s;
                  currentNsResults := currentNsResults s;
                  wire := w';
                  calls := calls s ++ [(ctxToUse request, request)] |}
      | _, _ => None
      end
  | Publish i =>
      (* results <- &result *)
      match workers s !! i with
      | Some (Sending result) =>
          if (length (Results s) <? size s)%nat then
            Some {| size := size s; Requests := Requests s;
                    closed := closed s; Results := Results s ++ [result];
                    workers := <[i := Ranging]> (workers s);
                    todo := todo s; phase := phase s;
                    expected := expected s; answered := answered s;
                    currentNsResults := currentNsResults s;
                    wire := wire s; calls := calls s |}
          else None
      | _ => None
      end
  | Return i =>
      (* the range loop ends: the channel is closed and drained *)
      match workers s !! i, Requests s with
      | Some Ranging, [] =>
          if closed s then
            Some {| size := size s; Requests := [];
                    closed := closed s; Results := Results s;
                    workers := <[i := Returned]> (workers s);
                    todo := todo s; phase := phase s;
                    expected := expected s; answered := answered s;
                    currentNsResults := currentNsResults s;
                    wire := wire s; calls := calls s |}
          else None
      | _, _ => None
      end
  | Receive =>
      (* result := <-q.Results; append; answered++ *)
      match phase s, Results s with
      | Collecting, result :: rest =>
          if (answered s =? expected s)%nat then None
          else
            Some {| size := size s; Requests := Requests s;
                    closed := closed s; Results := rest;
                    workers := workers s; todo := todo s;
                    phase := phase s; expected := expected s;
                    answered := S (answered s);
                    currentNsResults := currentNsResults s ++ [result];
                    wire := wire s; calls := calls s |}
      | _, _ => None
      end
  | Break =>
      (* if answered == len(selectedDomains) { break } *)
      match phase s with
      | Collecting =>
          if (answered s =? expected s)%nat then
            Some {| size := size s; Requests := Requests s;
                    closed := closed s; Results := Results s;
                    workers := workers s; todo := todo s;
                    phase := Finished; expected := expected s;
                    answered := answered s;
                    currentNsResults := currentNsResults s;
                    wire := wire s; calls := calls s |}
          else None
      | _ => None
      end
  end.

(** A schedule run from a state. *)
Fixpoint run (schedule : list Action) (s : State) : option State :=
  match schedule with
  | [] => Some s
  | a :: schedule' =>
      match step a s with
      | Some s' => run schedule' s'
      | None => None
      end
  end.

End Externals.

End dnsqueue.

(** ** Package ui: the constants and the jobs of [Submit] *)

Module ui.
Import dnsqueue.

(** How many requests/responses can be queued at once. *)
Definition QUEUE_LENGTH : nat := Z.to_nat 65535.

(** Number of workers. *)
Definition WORKERS : nat := 8.

(** Number of tests to run. *)
Definition COUNT : nat := 50.

(** The requests [Submit] adds for the host names it selected:
    [q.Add(uiCtx, "8.8.8.8:53", "A", record+".", false)]. *)
Definition SubmitJobs (hostnames : list string) : list Request :=
  map (fun record =>
         Add_request (Some Background) "8.8.8.8:53" "A"
                     (record ++ ".")%string false)
      hostnames.

End ui.

(** ** Package main: [runCliBenchmark] *)

Module namebench.
Import dnsqueue.
Local Open Scope Z_scope.

(** *** The benchmarking loop: the jobs of one nameserver *)

(** The request built for one selected domain. *)
Definition cliRequest (benchmarkCtx : Context) (ns record_type : string)
    (dnssec : bool) (domain : string) : Request :=
  {| Ctx := benchmarkCtx; Destination := ns; RecordType := record_type;
     RecordName := (domain ++ ".")%string; VerifySignature := dnssec |}.

(** The requests sent to [q.Requests] for nameserver [ns], in order.
    [benchmarkCtx] is [context.Background()]; the copy of the file that
    predates the context field leaves [Ctx] nil. *)
Definition cliJobs (benchmarkCtx : Context) (ns record_type : string)
    (dnssec : bool) (selectedDomains : list string) : list Request :=
  map (cliRequest benchmarkCtx ns record_type dnssec) selectedDomains.

(** *** The summary of the results *)

(** [+=] on an [int64]. *)
Definition wrap64 (z : Z) : Z := (z + 2 ^ 63) mod 2 ^ 64 - 2 ^ 63.

Record SummaryEntry : Type := {
  Nameserver : string;
  AverageMs : Q;
  SuccessfulQueries : Z;
  TotalQueries : Z
}.

(** One turn of the loop over [resultsForNs], on the pair
    [(nsTotalDuration, nsSuccessfulQueries)]. *)
Definition tally (acc : Z * Z) (result : Result) : Z * Z :=
  if String.eqb (Error result) "" then
    (wrap64 (fst acc + Duration result), snd acc + 1)
  else acc.

(** [float64(nsTotalDuration.Nanoseconds()/1e6) / float64(nsSuccessfulQueries)],
    and the zero value of [var avgMs float64] without a success. *)
Definition avgMs (nsTotalDuration nsSuccessfulQueries : Z) : Q :=
  if 0 <? nsSuccessfulQueries then
    Qmake (Z.quot nsTotalDuration 1000000) (Z.to_pos nsSuccessfulQueries)
  else 0%Q.

Definition summaryEntry (ns : string) (resultsForNs : list Result)
    : SummaryEntry :=
  let totals := fold_left tally resultsForNs (0, 0) in
  {| Nameserver := ns;
     AverageMs := avgMs (fst totals) (snd totals);
     SuccessfulQueries := snd totals;
     TotalQueries := Z.of_nat (length resultsForNs) |}.

(** The average the benchmarking loop logs for a nameserver with a
    success: [totalDuration/time.Duration(successfulQueries)], in
    nanoseconds. *)
Definition loggedAverage (currentNsResults : list Result) : Z :=
  let totals := fold_left tally currentNsResults (0, 0) in
  Z.quot (fst totals) (snd totals).

(** [allResults] after the benchmarking loop: [allResults[ns] =
    currentNsResults] for each nameserver in turn. *)
Definition allResults (batches : list (string * list Result))
    : gmap string (list Result) :=
  fold_left (fun m batch => <[batch.1 := batch.2]> m) batches ∅.

(** [insertionSort_func] of package [sort]: each element in turn moves
    left while [less] puts it before its left neighbour.  [insertLeft]
    works on the sorted part listed from right to left. *)
Fixpoint insertLeft {A} (less : A -> A -> bool) (x : A) (sorted : list A)
    : list A :=
  match sorted with
  | [] => [x]
  | y :: sorted' =>
      if less x y then y :: insertLeft less x sorted' else x :: sorted
  end.

Definition insertionSort_func {A} (less : A -> A -> bool) (data : list A)
    : list A :=
  rev (fold_left (fun sorted x => insertLeft less x sorted) data []).

(** [sort.Strings] on the keys of a map: the keys are distinct, so the
    result is their one ascending arrangement, whichever way it is
    computed. *)
Definition sort_Strings (x : list string) : list string :=
  insertionSort_func String.ltb x.

Definition sortedNameservers (m : gmap string (list Result)) : list string :=
  sort_Strings (map fst (map_to_list m)).

Definition summaryData (m : gmap string (list Result)) : list SummaryEntry :=
  map (fun ns => summaryEntry ns (default [] (m !! ns))) (sortedNameservers m).

Definition Qlt_bool (x y : Q) : bool := negb (Qle_bool y x).

(** The [less] function given to [sort.Slice]. *)
Definition less (i j : SummaryEntry) : bool :=
  if Qeq_bool (AverageMs i) (AverageMs j) then
    SuccessfulQueries j <? SuccessfulQueries i
  else if Qeq_bool (AverageMs i) 0 && Qlt_bool 0 (AverageMs j) then false
  else if Qeq_bool (AverageMs j) 0 && Qlt_bool 0 (AverageMs i) then true
  else Qlt_bool (AverageMs i) (AverageMs j).

(** The loop that prints the fastest nameservers: the entries printed. *)
Fixpoint fastestLoop (fastestAvg : Q) (entries : list SummaryEntry)
    : list SummaryEntry :=
  match entries with
  | [] => []
  | entry :: rest =>
      if Qeq_bool (AverageMs entry) fastestAvg
         && (0 <? SuccessfulQueries entry)
      then entry :: fastestLoop fastestAvg rest
      else if Qlt_bool fastestAvg (AverageMs entry)
              && negb (Qeq_bool (AverageMs entry) 0)
      then []
      else fastestLoop fastestAvg rest
  end.

Definition fastest (summaryData : list SummaryEntry) : list SummaryEntry :=
  match summaryData with
  | [] => []
  | first :: _ => fastestLoop (AverageMs first) summaryData
  end.

Definition maxInsertion : nat := 12%nat.

Section Sorting.

(** What [pdqsort_func] does to a slice of more than [maxInsertion]
    elements (package [sort], not part of the repository). *)
Variable pdqsort_large :
  (SummaryEntry -> SummaryEntry -> bool) -> list SummaryEntry ->
  list SummaryEntry.

(** [sort.Slice(x, less)]: [pdqsort_func] runs [insertionSort_func] on a
    slice of at most 12 elements. *)
Definition sort_Slice (less : SummaryEntry -> SummaryEntry -> bool)
    (x : list SummaryEntry) : list SummaryEntry :=
  if (length x <=? maxInsertion)%nat then insertionSort_func less x
  else pdqsort_large less x.

(** The ranked list of the report, from the results per nameserver in the
    order the nameservers were tested. *)
Definition ranked (batches : list (string * list Result))
    : list SummaryEntry :=
  sort_Slice less (summaryData (allResults batches)).

End Sorting.

End namebench.

(** ** Package bufio: the scanner [loadDomainsFromFile] reads lines with *)

Module GoBufio.

(** [bufio.MaxScanTokenSize]: the size the buffer of a [Scanner] grows
    to. *)
Definition MaxScanTokenSize : N := 65536.

(** [dropCR]: a trailing ['\r'] is dropped. *)
Fixpoint dropCR (data : string) : string :=
  match data with
  | EmptyString => EmptyString
  | String c EmptyString => if Ascii.eqb c "013" then EmptyString else data
  | String c rest => String c (dropCR rest)
  end.

(** The tokens [Scan] returns with the split function [ScanLines], from
    the pieces between the newlines, and whether the scanner stopped with
    [ErrTooLong]: it does at the first line that does not fit the buffer
    with its end; the lines before it have been returned.  What follows
    the last newline is a line unless it is empty. *)
Fixpoint scanTokens (pieces : list string) : list string * bool :=
  match pieces with
  | [] => ([], false)
  | piece :: rest =>
      match rest with
      | [] =>
          if String.eqb piece "" then ([], false)
          else if N.leb MaxScanTokenSize (N.of_nat (String.length piece))
               then ([], true)
               else ([dropCR piece], false)
      | _ :: _ =>
          if N.leb MaxScanTokenSize (N.of_nat (String.length piece))
          then ([], true)
          else (dropCR piece :: (scanTokens rest).1, (scanTokens rest).2)
      end
  end.

(** A file that was opened: the bytes a reader gets from it, and the
    error, if any, that ends the reading instead of [io.EOF]. *)
Record Reader : Type := {
  content : string;
  readErr : option string
}.

(** A [Scanner] over [r] run to its end with [for scanner.Scan()]: the
    texts of the tokens and [scanner.Err()].  At a read error the bytes
    read so far are split as at the end of the input. *)
Definition Scan (r : Reader) : list string * option string :=
  let scanned := scanTokens (GoStrings.Split (content r) "010") in
  (scanned.1,
   if scanned.2 then Some "bufio.Scanner: token too long" else readErr r).

End GoBufio.

(** ** Package main: the domains, and the window of the UI mode *)

Module cli.
Import GoStrings GoBufio Flags.

(** What [os.Open] gives for a path. *)
Inductive OpenResult : Type :=
| Opened (file : Reader)
| OpenFailed (err : string).

(** [loadDomainsFromFile] reads domains from a given filepath, one domain
    per line; it returns [(domains, err)]. *)
Definition loadDomainsFromFile (open : string -> OpenResult)
    (filePath : string) : list string * option string :=
  match open filePath with
  | OpenFailed err =>
      ([], Some ("failed to open domain file " ++ filePath ++ ": " ++ err)%string)
  | Opened file =>
      let scanned := Scan file in
      let domains :=
        fold_left (fun domains text =>
                     let domain := TrimSpace text in
                     if negb (String.eqb domain "") then domains ++ [domain]
                     else domains)
                  scanned.1 [] in
      match scanned.2 with
      | Some err =>
          (domains,
           Some ("error scanning domain file " ++ filePath ++ ": " ++ err)%string)
      | None => (domains, None)
      end
  end.

(** [ui.HISTORY_DAYS]: how far back to reach into browser history. *)
Definition HISTORY_DAYS : Z := 30.

Section Collaborators.

(** Package [history], which is not part of these sources: the records of
    [history.Chrome(days)] with its error, [history.ExternalHostnames]
    and [history.Uniq]. *)
Variable record : Type.
Variable Chrome : Z -> list record * option string.
Variable ExternalHostnames : list record -> list string.
Variable Uniq : list string -> list string.

(** [domainsToTest] after the [switch] over the flag [domain_source] in
    [runCliBenchmark]. *)
Definition domainsToTest (open : string -> OpenResult)
    (domain_source : string) : list string :=
  if String.eqb domain_source "history" then
    let historyRecords := (Chrome HISTORY_DAYS).1 in
    match (Chrome HISTORY_DAYS).2 with
    | Some _ => defaultDomains
    | None =>
        if Nat.eqb (length historyRecords) 0 then defaultDomains
        else
          let domains := Uniq (ExternalHostnames historyRecords) in
          if Nat.eqb (length domains) 0 then defaultDomains else domains
    end
  else if String.eqb domain_source "default_list" then defaultDomains
  else
    let loadedFileDomains := (loadDomainsFromFile open domain_source).1 in
    match (loadDomainsFromFile open domain_source).2 with
    | Some _ => defaultDomains
    | None =>
        if Nat.eqb (length loadedFileDomains) 0 then defaultDomains
        else loadedFileDomains
    end.

End Collaborators.

(** What [os.Stat] says of a path. *)
Inductive StatResult : Type :=
| StatOk
| StatNotExist (err : string)
| StatFailed (err : string).

(** The machine [openWindow] acts on: the files, the outcome a run of
    the node-webkit command would have, the environment, and the commands
    run so far with their argument. *)
Record Machine : Type := {
  stat : string -> StatResult;
  runOutcome : string -> string -> option string;
  environ : list (string * string);
  commands : list (string * string)
}.

Definition Setenv (key value : string) (m : Machine) : Machine :=
  {| stat := stat m; runOutcome := runOutcome m;
     environ := (key, value) :: environ m; commands := commands m |}.

(** [os.Getenv]: the last value set. *)
Fixpoint lookupEnv (key : string) (env : list (string * string))
    : option string :=
  match env with
  | [] => None
  | (k, v) :: rest => if String.eqb k key then Some v else lookupEnv key rest
  end.

(** [exec.Command(name, arg).Run()]. *)
Definition Run (name arg : string) (m : Machine) : option string * Machine :=
  (runOutcome m name arg,
   {| stat := stat m; runOutcome := runOutcome m; environ := environ m;
      commands := commands m ++ [(name, arg)] |}).

(** [openWindow] opens a nodejs-webkit window, and points it at the given
    URL; it returns [err] and the machine after the call. *)
Definition openWindow (nw_path nw_package url : string) (m : Machine)
    : option string * Machine :=
  match stat m nw_path with
  | StatNotExist err =>
      (Some ("node-webkit binary not found at " ++ nw_path
             ++ ", please check path or installation: " ++ err)%string, m)
  | StatFailed err =>
      (Some ("error checking node-webkit binary at " ++ nw_path ++ ": "
             ++ err)%string, m)
  | StatOk =>
      match stat m nw_package with
      | StatNotExist err =>
          (Some ("node-webkit package not found at " ++ nw_package ++ ": "
                 ++ err)%string, m)
      | StatFailed err =>
          (Some ("error checking node-webkit package at " ++ nw_package
                 ++ ": " ++ err)%string, m)
      | StatOk =>
          let m := Setenv "APP_URL" url m in
          let '(err, m) := Run nw_path nw_package m in
          match err with
          | Some err =>
              (Some ("error running node-webkit command " ++ nw_path
                     ++ " with package " ++ nw_package ++ ": " ++ err)%string,
               m)
          | None => (None, m)
          end
      end
  end.

End cli.

(** * The vocabulary of the properties *)

(** ** The nameserver flag: definitions *)

Module FlagDefs.
Import GoStrings Flags.

(** The normalization of one entry: the default port is appended to an
    entry without a colon. *)
Definition addDefaultPort (entry : string) : string :=
  if Contains entry ":" then entry else (entry ++ ":53")%string.

(** The flag read element by element, the way the design document puts
    it: every element of the comma-separated list is normalized as it
    stands. *)
Definition normalizedElements (nsFlag : string) : list string :=
  map addDefaultPort (Split nsFlag ",").

Definition nonEmpty (entry : string) : bool := negb (String.eqb entry "").

End FlagDefs.

(** ** The jobs: definitions *)

Module JobDefs.
Import dnsqueue ui namebench.

(** The last byte of [s] is [c]. *)
Fixpoint lastByteIs (c : ascii) (s : string) : bool :=
  match s with
  | EmptyString => false
  | String b EmptyString => Ascii.eqb b c
  | String _ rest => lastByteIs c rest
  end.

End JobDefs.

(** ** The query executor: definitions *)

Module ExecutorDefs.
Import dnsqueue.
Local Open Scope Z_scope.

(** A table that knows the mnemonics "A", "AAAA" and "MX". *)
Definition someTypes (mnemonic : string) : option Z :=
  if String.eqb mnemonic "A" then Some 1
  else if String.eqb mnemonic "AAAA" then Some 28
  else if String.eqb mnemonic "MX" then Some 15
  else None.

(** [strconv.Quote] on a string of printable ASCII characters without a
    quote or a backslash: the string between double quotes. *)
Definition quotePlain (s : string) : string :=
  String (ascii_of_nat 34) (s ++ String (ascii_of_nat 34) EmptyString).

(** A server that answers every question with one A record after 11ms. *)
Definition oneRecord (n : nat) (ctx : Context) (m : Msg) (a : string)
    : ExchangeReply :=
  ExchangeOk [{| Hdr_Ttl := 300; Hdr_Name := "example.com.";
                 RR_String := "example.com. 300 IN A 93.184.216.34" |}]
             11000000.

(** A network on which every exchange times out after two seconds. *)
Definition timesOut (n : nat) (ctx : Context) (m : Msg) (a : string)
    : ExchangeReply :=
  ExchangeFailed 2000000000 "i/o timeout".

Definition exampleRequest (record_type : string) : Request :=
  {| Ctx := Some Background; Destination := "8.8.8.8:53";
     RecordType := record_type; RecordName := "example.com.";
     VerifySignature := false |}.

(** The transport measures the time of an answered exchange: it is not
    negative. *)
Definition elapsedNonNegative
    (network : nat -> Context -> Msg -> string -> ExchangeReply) : Prop :=
  forall n ctx m a in_Answer rtt,
    network n ctx m a = ExchangeOk in_Answer rtt -> 0 <= rtt.

(** A result as the design document wants it: a failure description
    goes with no answer, its absence with an elapsed time that is not
    negative. *)
Definition wellFormed (result : Result) : Prop :=
  (Error result <> "" -> Answers result = [])
  /\ (Error result = "" -> 0 <= Duration result).

End ExecutorDefs.

(** ** The queue and its goroutines: definitions *)

Module PoolDefs.
Import dnsqueue.

(** The result a worker holds between [SendQuery] and its send. *)
Definition heldBy (w : Worker) : list Result :=
  match w with
  | Sending result => [result]
  | _ => []
  end.

Definition held (ws : list Worker) : list Result := flat_map heldBy ws.

(** The steps a worker still has before it can do nothing more, when no
    further request comes. *)
Definition workerWeight (w : Worker) : nat :=
  match w with
  | Ranging => 1
  | Sending _ => 3
  | Returned => 0
  end.

Definition phaseWeight (p : Phase) : nat :=
  match p with
  | Dispatching => 2
  | Collecting => 1
  | Finished => 0
  end.

(** A bound on the number of steps left. *)
Definition stepsLeft (s : State) : nat :=
  4 * length (todo s) + 3 * length (Requests s)
  + sum_list_with workerWeight (workers s)
  + length (Results s) + phaseWeight (phase s).

(** The requests of the batch, wherever they are: received by the
    caller, in the results channel, in the hands of a worker, in the
    requests channel, or not yet sent. *)
Definition whereabouts (s : State) : list Request :=
  map Req (currentNsResults s) ++ map Req (Results s)
  ++ map Req (held (workers s)) ++ Requests s ++ todo s.

Record Inv (size0 workers0 : nat) (jobs : list Request) (s : State)
    : Prop := {
  inv_jobs : jobs ≡ₚ whereabouts s;
  inv_answered : answered s = length (currentNsResults s);
  inv_expected : expected s = length jobs;
  inv_size : size s = size0;
  inv_workers : length (workers s) = workers0;
  inv_open : phase s = Dispatching -> closed s = false;
  inv_closed : phase s <> Dispatching -> closed s = true /\ todo s = [];
  inv_finished : phase s = Finished -> answered s = expected s;
  inv_returned : Returned ∈ workers s -> closed s = true /\ Requests s = []
}.

(** The results in the hands of the workers, in the results channel and
    received by the caller. *)
Definition produced (s : State) : list Result :=
  currentNsResults s ++ Results s ++ held (workers s).

(** The contexts given to [SendQuery] and to the transport. *)
Definition contextsGiven (s : State) : Prop :=
  Forall (fun call : Context * Request => call.1 <> None) (calls s)
  /\ Forall (fun exchange => ex_ctx exchange <> None) (wire s).

(** A network that answers one exchange in two and times out on the
    others. *)
Definition everyOther (n : nat) (ctx : Context) (m : Msg) (a : string)
    : ExchangeReply :=
  if Nat.even n then ExecutorDefs.oneRecord n ctx m a
  else ExecutorDefs.timesOut n ctx m a.

Definition exampleDomains : list string :=
  ["google.com"; "cloudflare.com"; "amazon.com"].

(** A run of three jobs through a queue of size 1 with two workers. *)
Definition exampleSchedule : list Action :=
  [Submit; Serve 0; Submit; Serve 1; Submit; SendCompletionSignal;
   Publish 0; Receive; Serve 0; Publish 1; Receive; Publish 0; Receive;
   Break].

End PoolDefs.

(** ** Sorting: definitions *)

Module SortDefs.
Import namebench.
Local Open Scope Z_scope.

(** [less] is a strict weak order: what [sort] asks of it. *)
Record StrictWeak {A : Type} (less : A -> A -> bool) : Prop := {
  less_irrefl : forall a, less a a = false;
  less_trans : forall a b c,
    less a b = true -> less b c = true -> less a c = true;
  less_incomparable : forall a b c,
    less a b = false -> less b c = false -> less a c = false
}.

(** [a] is put before [b]: by [less], or when [less] does not tell them
    apart, by the earlier position. *)
Definition before {A : Type} (less : A -> A -> bool)
    (earlier : A -> A -> Prop) (a b : A) : Prop :=
  less a b = true \/ (less b a = false /\ earlier a b).

Arguments less_irrefl {A less}.
Arguments less_trans {A less}.
Arguments less_incomparable {A less}.

End SortDefs.

(** ** The report: definitions *)

Module ReportDefs.
Import dnsqueue namebench SortDefs.
Local Open Scope Z_scope.

(** A result without a failure description. *)
Definition successful (result : Result) : bool := String.eqb (Error result) "".

(** The entry of [a] was built before the entry of [b]: the summaries are
    built in the ascending order of the nameserver strings. *)
Definition earlierName (a b : SummaryEntry) : Prop :=
  String.ltb (Nameserver a) (Nameserver b) = true.

(** What every entry of the summary satisfies. *)
Definition summaryInvariant (entry : SummaryEntry) : Prop :=
  0 <= SuccessfulQueries entry
  /\ (SuccessfulQueries entry = 0 -> AverageMs entry = 0%Q).

(** A server that answers every question after [rtt] nanoseconds. *)
Definition answering (rtt : Z) (n : nat) (ctx : Context) (m : Msg)
    (a : string) : ExchangeReply :=
  ExchangeOk [{| Hdr_Ttl := 300; Hdr_Name := "example.com.";
                 RR_String := "example.com. 300 IN A 93.184.216.34" |}] rtt.

(** The result [SendQuery] gives for [domain] asked of [ns] over
    [network]. *)
Definition resultVia
    (network : nat -> Context -> Msg -> string -> ExchangeReply)
    (ns domain : string) : Result :=
  (SendQuery ExecutorDefs.someTypes ExecutorDefs.quotePlain network (Some Background)
             (cliRequest (Some Background) ns "A" false domain) []).1.1.

Definition threeResults
    (network : nat -> Context -> Msg -> string -> ExchangeReply)
    (ns : string) : list Result :=
  map (resultVia network ns) PoolDefs.exampleDomains.

(** The mean the design document asks for: the arithmetic mean, in
    milliseconds, of the elapsed times of the successful results. *)
Definition exactMeanMs (results : list Result) : Q :=
  let successes := List.filter successful results in
  Qmake (fold_right Z.add 0 (map Duration successes))
        (Z.to_pos (1000000 * Z.of_nat (length successes))).

(** Two answers after 600 microseconds each. *)
Definition twoQuickAnswers : list Result :=
  [resultVia (answering 600000) "10.0.0.1:53" "google.com";
   resultVia (answering 600000) "10.0.0.1:53" "cloudflare.com"].

(** The fastest subset as the design document describes it: the entries
    with a success whose mean is the smallest among the entries with a
    success. *)
Definition fastestAsDescribed (entries : list SummaryEntry)
    : list SummaryEntry :=
  List.filter
    (fun entry =>
       (0 <? SuccessfulQueries entry)
       && forallb (fun other =>
                     implb (0 <? SuccessfulQueries other)
                           (Qle_bool (AverageMs entry) (AverageMs other)))
                  entries)
    entries.

(** An entry with a success has a mean above 0. *)
Definition meanPositive (entry : SummaryEntry) : Prop :=
  0 < SuccessfulQueries entry -> (0 < AverageMs entry)%Q.

(** The entry has the mean [fastestAvg] and a success. *)
Definition withMean (fastestAvg : Q) (entry : SummaryEntry) : bool :=
  Qeq_bool (AverageMs entry) fastestAvg && (0 <? SuccessfulQueries entry).

(** One nameserver answers in 0.4 ms, the other in 5 ms. *)
Definition slowAndQuick : list (string * list Result) :=
  [("10.0.0.1:53",
    [resultVia (answering 400000) "10.0.0.1:53" "google.com"]);
   ("10.0.0.2:53",
    [resultVia (answering 5000000) "10.0.0.2:53" "google.com"])].

(** What package [sort] promises of a sort with a function [less] that
    is a strict weak order: the slice is permuted and no element is
    [less] than one before it. *)
Definition sortsSlices
    (sort : (SummaryEntry -> SummaryEntry -> bool) -> list SummaryEntry ->
            list SummaryEntry) : Prop :=
  forall less data,
    StrictWeak less ->
    sort less data ≡ₚ data
    /\ StronglySorted (fun a b => less b a = false) (sort less data).

(** The ranking the design document describes: the entries in the order
    of the nameserver list, sorted by a sort that keeps the input order
    of the entries it does not tell apart; zero successes last, then the
    mean, then the higher count. *)
Definition describedLess (a b : SummaryEntry) : bool :=
  if (SuccessfulQueries a =? 0) || (SuccessfulQueries b =? 0) then
    negb (SuccessfulQueries a =? 0) && (SuccessfulQueries b =? 0)
  else if Qeq_bool (AverageMs a) (AverageMs b) then
    SuccessfulQueries b <? SuccessfulQueries a
  else Qlt_bool (AverageMs a) (AverageMs b).

Definition rankingAsDescribed (batches : list (string * list Result))
    : list SummaryEntry :=
  insertionSort_func describedLess
    (map (fun batch => summaryEntry batch.1 batch.2) batches).

(** Two nameservers that both answer in 10 ms, "8.8.8.8:53" tested
    first. *)
Definition tiedServers : list (string * list Result) :=
  [("8.8.8.8:53",
    [resultVia (answering 10000000) "8.8.8.8:53" "google.com"]);
   ("1.1.1.1:53",
    [resultVia (answering 10000000) "1.1.1.1:53" "google.com"])].

(** The scenario of the design document: "8.8.8.8:53" at 10, 12 and 11
    ms, "1.1.1.1:53" at 20, 21 and 19 ms, and a third nameserver whose
    three queries time out. *)
Definition designScenario : list (string * list Result) :=
  [("8.8.8.8:53",
    [resultVia (answering 10000000) "8.8.8.8:53" "google.com";
     resultVia (answering 12000000) "8.8.8.8:53" "cloudflare.com";
     resultVia (answering 11000000) "8.8.8.8:53" "amazon.com"]);
   ("1.1.1.1:53",
    [resultVia (answering 20000000) "1.1.1.1:53" "google.com";
     resultVia (answering 21000000) "1.1.1.1:53" "cloudflare.com";
     resultVia (answering 19000000) "1.1.1.1:53" "amazon.com"]);
   ("192.0.2.1:53", threeResults ExecutorDefs.timesOut "192.0.2.1:53")].

End ReportDefs.

(** ** White space at the ends of a string: definitions *)

Module TrimDefs.
Import GoStrings.

(** [s] starts with the encoding of a white-space code point. *)
Definition startsWithSpace (s : string) : bool :=
  match s with
  | EmptyString => false
  | String b1 r1 =>
      asciiSpace b1
      || match r1 with
         | EmptyString => false
         | String b2 r2 =>
             isSpace2 b1 b2
             || match r2 with
                | EmptyString => false
                | String b3 _ => isSpace3 b1 b2 b3
                end
         end
  end.

(** The same for the reversed byte sequence: [s], read backwards, ends
    with the encoding of a white-space code point. *)
Definition startsWithSpaceRev (s : string) : bool :=
  match s with
  | EmptyString => false
  | String b1 r1 =>
      asciiSpace b1
      || match r1 with
         | EmptyString => false
         | String b2 r2 =>
             isSpace2 b2 b1
             || match r2 with
                | EmptyString => false
                | String b3 _ => isSpace3 b3 b2 b1
                end
         end
  end.

(** [s] has white space neither at its start nor at its end. *)
Definition trimmed (s : string) : bool :=
  negb (startsWithSpace s) && negb (startsWithSpaceRev (reverse s)).

End TrimDefs.

(** ** The domains of a file: definitions *)

Module DomainDefs.
Import GoStrings GoBufio Flags cli FlagDefs TrimDefs.

(** A line that does not fit the buffer of the scanner. *)
Definition tooLong (line : string) : bool :=
  N.leb MaxScanTokenSize (N.of_nat (String.length line)).

(** The byte [c] does not occur in [s]. *)
Definition noByte (c : ascii) (s : string) : bool :=
  forallb (fun b => negb (Ascii.eqb b c)) (list_ascii_of_string s).

(** A domain that a file can list on a line of its own: it is not empty,
    has no white space at its ends and no newline inside, and fits the
    buffer. *)
Definition listable (domain : string) : bool :=
  nonEmpty domain && trimmed domain && noByte "010" domain
  && negb (tooLong domain).

(** The file that lists [domains] one per line, with or without a newline
    after the last one. *)
Fixpoint listing (domains : list string) (finalNewline : bool) : string :=
  match domains with
  | [] => ""
  | domain :: rest =>
      match rest with
      | [] => if finalNewline then domain ++ String "010" "" else domain
      | _ :: _ => domain ++ String "010" (listing rest finalNewline)
      end
  end.

(** The lines of a file: what stands between its newlines. *)
Definition lines (file : Reader) : list string := Split (content file) "010".

(** The lines before the first one that is too long. *)
Fixpoint scannable (pieces : list string) : list string :=
  match pieces with
  | [] => []
  | piece :: rest => if tooLong piece then [] else piece :: scannable rest
  end.

(** The error [loadDomainsFromFile] returns for a scanner that stopped
    with [err]. *)
Definition scanError (filePath err : string) : string :=
  "error scanning domain file " ++ filePath ++ ": " ++ err.

(** A line of [n] bytes. *)
Definition longLine (n : positive) : string :=
  Pos.iter (String "a") "" n.

(** A file as the repository's test "file with domains and whitespace"
    has it, one line ending in CR LF. *)
Definition exampleFile : Reader :=
  {| content := "  google.com  " ++ String "010" "" ++ String "010" ""
                ++ "cloudflare.com" ++ String "013" "" ++ String "010" ""
                ++ "  example.com" ++ String "010" "";
     readErr := None |}.

(** A file whose second line has 65536 bytes. *)
Definition longFile : Reader :=
  {| content := " example.com" ++ String "010" "" ++ longLine 65536
                ++ String "010" "example.org";
     readErr := None |}.

End DomainDefs.

(** ** The entries of the nameserver list: definitions *)

Module EntryDefs.
Import GoStrings Flags FlagDefs TrimDefs DomainDefs.

(** An entry as [parseNameservers] makes it: not empty, with a colon,
    without a comma, and with no white space at its start. *)
Definition hostPort (entry : string) : bool :=
  nonEmpty entry && Contains entry ":" && noByte "," entry
  && negb (startsWithSpace entry).

End EntryDefs.

(** ** The window of the UI mode: definitions *)

Module WindowDefs.
Import cli.

(** [os.Stat] found the file. *)
Definition found (r : StatResult) : bool :=
  match r with
  | StatOk => true
  | _ => false
  end.

End WindowDefs.

(** ** The queue at work: definitions *)

Module QueueDefs.
Import dnsqueue PoolDefs.
Local Open Scope Z_scope.

(** The message [SendQuery] sends for a request whose record type has
    the code [record_type]: the question, and the EDNS0 record with the
    DO bit and a UDP size of 4096 when the signature is to be verified. *)
Definition queryMsg (request : Request) (record_type : Z) : Msg :=
  {| Edns0 := if VerifySignature request then Some (4096, true) else None;
     Question := Some (RecordName request, record_type) |}.

(** The exchanges a call of [SendQuery] makes: one if the record type is
    known, none otherwise. *)
Definition exchangesOf (StringToType : string -> option Z)
    (call : Context * Request) : list Exchange :=
  match StringToType (RecordType call.2) with
  | None => []
  | Some record_type =>
      [{| ex_ctx := call.1; ex_msg := queryMsg call.2 record_type;
          ex_address := Destination call.2 |}]
  end.


(** The channels hold no more than their capacity, and nothing is
    received before the requests are all sent. *)
Record Bounded (s : State) : Prop := {
  bounded_Requests : (length (Requests s) <= size s)%nat;
  bounded_Results : (length (Results s) <= size s)%nat;
  bounded_dispatching : phase s = Dispatching -> currentNsResults s = []
}.

(** A request for the A records of a name, with the signature to be
    verified. *)
Definition signedRequest : Request :=
  {| Ctx := Some Background; Destination := "8.8.8.8:53";
     RecordType := "A"; RecordName := "example.com.";
     VerifySignature := true |}.

(** The requests of the command line for three domains. *)
Definition threeJobs : list Request :=
  namebench.cliJobs (Some Background) "8.8.8.8:53" "A" false exampleDomains.

(** The requests of the command line for the ten default domains. *)
Definition tenJobs : list Request :=
  namebench.cliJobs (Some Background) "8.8.8.8:53" "A" false
                    Flags.defaultDomains.

(** Three jobs through a queue of size 1 with one worker. *)
Definition singleWorkerSchedule : list Action :=
  [Submit; Serve 0; Submit; Publish 0; Serve 0; Submit; SendCompletionSignal;
   Receive; Publish 0; Serve 0; Receive; Publish 0; Receive; Break].

(** The steps that fill a queue of size 1 with one worker. *)
Definition fillingSchedule : list Action :=
  [Submit; Serve 0; Submit; Publish 0; Serve 0; Submit].

End QueueDefs.

(** ** The summary of a run: definitions *)

Module SummaryDefs.
Import dnsqueue namebench ReportDefs.

(** The batch of a nameserver in a list of batches that counts for the
    report: the last one. *)
Fixpoint lastBatch (ns : string) (batches : list (string * list Result))
    : option (list Result) :=
  match batches with
  | [] => None
  | batch :: rest =>
      match lastBatch ns rest with
      | Some results => Some results
      | None => if String.eqb batch.1 ns then Some batch.2 else None
      end
  end.

(** A nameserver given twice: its first batch is answered, its second
    one times out. *)
Definition testedTwice : list (string * list Result) :=
  [("8.8.8.8:53",
    [resultVia (answering 10000000) "8.8.8.8:53" "google.com"]);
   ("1.1.1.1:53",
    [resultVia (answering 20000000) "1.1.1.1:53" "google.com"]);
   ("8.8.8.8:53", threeResults ExecutorDefs.timesOut "8.8.8.8:53")].

End SummaryDefs.

(** * Properties *)

(** ** The nameserver flag *)

Module FlagFacts.
Import GoStrings Flags.
Import FlagDefs.

Lemma parseStep_fold (nsParts parsed : list string) :
  fold_left parseStep nsParts parsed
  = parsed ++ map addDefaultPort (List.filter nonEmpty (map TrimSpace nsParts)).
Proof.
  revert parsed.
  induction nsParts as [|ns nsParts IH]; intros parsed; simpl.
  - by rewrite app_nil_r.
  - rewrite IH. unfold parseStep, nonEmpty, addDefaultPort.
    destruct (String.eqb (TrimSpace ns) "") eqn:Hempty; simpl; [done|].
    rewrite <- app_assoc. simpl.
    by destruct (Contains (TrimSpace ns) ":").
Qed.

(** C8, counterexample: on the flag of the repository's own test
    "comma-separated list with spaces" the entries are not normalized as
    they stand: the element [" 1.1.1.1:5353 "] holds a colon and is not
    left unchanged, and ["8.8.8.8 "] does not become ["8.8.8.8 :53"]. *)
Lemma parseNameservers_trims_first :
  parseNameservers "8.8.8.8 , 1.1.1.1:5353 , 4.2.2.1" defaultNameservers
    = ["8.8.8.8:53"; "1.1.1.1:5353"; "4.2.2.1:53"]
  /\ normalizedElements "8.8.8.8 , 1.1.1.1:5353 , 4.2.2.1"
    = ["8.8.8.8 :53"; " 1.1.1.1:5353 "; " 4.2.2.1:53"]
  /\ parseNameservers "8.8.8.8 , 1.1.1.1:5353 , 4.2.2.1" defaultNameservers
     <> normalizedElements "8.8.8.8 , 1.1.1.1:5353 , 4.2.2.1".
Proof. vm_compute. repeat split; discriminate. Qed.

(** An empty element has no colon either; it is skipped, and a flag of
    empty elements only gives the defaults (the tests "empty string
    elements" and "only commas"). *)
Lemma parseNameservers_skips_empty :
  parseNameservers "8.8.8.8,,1.1.1.1" defaultNameservers
    = ["8.8.8.8:53"; "1.1.1.1:53"]
  /\ normalizedElements "8.8.8.8,,1.1.1.1"
    = ["8.8.8.8:53"; ":53"; "1.1.1.1:53"]
  /\ parseNameservers ",," defaultNameservers = defaultNameservers.
Proof. vm_compute. repeat split. Qed.

(** C8, as the code has it: every element of the comma-separated flag is
    first trimmed of surrounding white space and skipped when nothing is
    left; a remaining entry without a colon gets [":53"] appended and one
    with a colon is kept as trimmed; the defaults stand in for an empty
    flag or an empty outcome.  So ["9.9.9.9"] becomes ["9.9.9.9:53"] and
    ["9.9.9.9:5353"] is unchanged. *)
Theorem parseNameservers_trimmed_entries (nsFlag : string)
    (defaultNS : list string) :
  parseNameservers nsFlag defaultNS
  = (if String.eqb nsFlag "" then defaultNS
     else match List.filter nonEmpty (map TrimSpace (Split nsFlag ",")) with
          | [] => defaultNS
          | kept => map addDefaultPort kept
          end)
  /\ parseNameservers "9.9.9.9" defaultNS = ["9.9.9.9:53"]
  /\ parseNameservers "9.9.9.9:5353" defaultNS = ["9.9.9.9:5353"].
Proof.
  split; [|by vm_compute].
  unfold parseNameservers.
  destruct (String.eqb nsFlag ""); [done|].
  rewrite parseStep_fold. simpl.
  by destruct (List.filter nonEmpty (map TrimSpace (Split nsFlag ","))).
Qed.

End FlagFacts.

(** ** The query executor *)

Module ExecutorFacts.
Import dnsqueue.
Local Open Scope Z_scope.
Import ExecutorDefs.

Section Executor.

Variable StringToType : string -> option Z.
Variable Quote : string -> string.
Variable network : nat -> Context -> Msg -> string -> ExchangeReply.

Local Abbreviation SendQuery := (dnsqueue.SendQuery StringToType Quote network).

(** The result carries the request it was made for. *)
Lemma SendQuery_Req (ctx : Context) (request : Request) (w : Wire) :
  Req (SendQuery ctx request w).1.1 = request.
Proof.
  unfold dnsqueue.SendQuery, ExchangeContext.
  destruct (StringToType (RecordType request)); [|done].
  by destruct (network _ _ _ _).
Qed.

(** [err] is returned exactly when the result carries a description. *)
Lemma SendQuery_err (ctx : Context) (request : Request) (w : Wire) :
  (SendQuery ctx request w).1.2 = None
  <-> Error (SendQuery ctx request w).1.1 = "".
Proof.
  unfold dnsqueue.SendQuery, ExchangeContext.
  destruct (StringToType (RecordType request)); [|done].
  by destruct (network _ _ _ _).
Qed.

(** The network after the call: untouched, or one more exchange, made
    with the context and for the destination of the call. *)
Lemma SendQuery_wire (ctx : Context) (request : Request) (w : Wire) :
  (SendQuery ctx request w).2 = w
  \/ exists m, (SendQuery ctx request w).2
               = w ++ [{| ex_ctx := ctx; ex_msg := m;
                          ex_address := Destination request |}].
Proof.
  unfold dnsqueue.SendQuery, ExchangeContext.
  destruct (StringToType (RecordType request)); [|by left].
  right. eexists. by destruct (network _ _ _ _).
Qed.

(** On a transport that measures elapsed times, the result of
    [SendQuery] is well formed. *)
Lemma SendQuery_wellFormed (ctx : Context) (request : Request) (w : Wire) :
  elapsedNonNegative network -> wellFormed (SendQuery ctx request w).1.1.
Proof.
  intros Hrtt. unfold wellFormed, dnsqueue.SendQuery, ExchangeContext.
  destruct (StringToType (RecordType request)) as [record_type|]; simpl.
  - destruct (network _ _ _ _) as [in_Answer rtt|rtt exchangeErr] eqn:Hreply;
      simpl.
    + split; [done|]. intros _. by eapply Hrtt.
    + split; [done|]. discriminate.
  - split; [done|]. discriminate.
Qed.

(** C6: for a record type that [dns.StringToType] does not know,
    [SendQuery] returns at once: the network is as it was (no exchange
    was made), [err] and the failure description are set, there is no
    answer and the elapsed time is zero. *)
Theorem SendQuery_unknown_type (ctx : Context) (request : Request)
    (w : Wire) :
  StringToType (RecordType request) = None ->
  exists err,
    SendQuery ctx request w
    = ({| Req := request; Duration := 0; Answers := []; Error := err |},
       Some err, w)
    /\ err <> "".
Proof.
  intros Hunknown. unfold dnsqueue.SendQuery. rewrite Hunknown.
  eexists. split; [reflexivity|]. discriminate.
Qed.

End Executor.

(** The mnemonic "BOGUS" is not in the table: nothing reaches the wire. *)
Lemma SendQuery_unknown_type_witness :
  someTypes "BOGUS" = None
  /\ exists err,
       SendQuery someTypes quotePlain timesOut (Some Background)
                 (exampleRequest "BOGUS") []
       = ({| Req := exampleRequest "BOGUS"; Duration := 0; Answers := [];
             Error := err |}, Some err, [])
       /\ err <> "".
Proof.
  split; [reflexivity|].
  exact (SendQuery_unknown_type someTypes quotePlain timesOut (Some Background)
           (exampleRequest "BOGUS") [] eq_refl).
Defined.

End ExecutorFacts.

(** ** The queue and its goroutines *)

Module PoolFacts.
Import dnsqueue.
Import PoolDefs.

Lemma held_insert (ws : list Worker) (i : nat) (w w' : Worker) :
  ws !! i = Some w ->
  heldBy w ++ held (<[i := w']> ws) ≡ₚ heldBy w' ++ held ws.
Proof.
  revert i. induction ws as [|w0 ws IH]; intros [|i] Hi; simplify_eq/=.
  - solve_Permutation.
  - specialize (IH i Hi). unfold held in IH.
    rewrite (Permutation_app_swap_app (heldBy w)), IH. solve_Permutation.
Qed.

Lemma weight_insert (ws : list Worker) (i : nat) (w w' : Worker) :
  ws !! i = Some w ->
  workerWeight w + sum_list_with workerWeight (<[i := w']> ws)
  = workerWeight w' + sum_list_with workerWeight ws.
Proof.
  revert i. induction ws as [|w0 ws IH]; intros [|i] Hi; simplify_eq/=.
  - lia.
  - specialize (IH i Hi). lia.
Qed.

Lemma elem_of_insert_other (ws : list Worker) (i : nat) (w w' x : Worker) :
  ws !! i = Some w -> x ∈ <[i := w']> ws -> x = w' \/ x ∈ ws.
Proof.
  intros Hi Hx. apply list_elem_of_lookup in Hx as [j Hj].
  destruct (decide (i = j)) as [->|Hne].
  - rewrite list_lookup_insert_eq in Hj by (by eapply lookup_lt_Some).
    left. congruence.
  - rewrite list_lookup_insert_ne in Hj by done.
    right. by eapply list_elem_of_lookup_2.
Qed.

Lemma held_nil_lookup (ws : list Worker) (i : nat) (result : Result) :
  held ws = [] -> ws !! i = Some (Sending result) -> False.
Proof.
  revert i. induction ws as [|w0 ws IH]; intros [|i] Hheld Hi; simplify_eq/=.
  apply app_eq_nil in Hheld as [_ Hheld]. eauto.
Qed.

Lemma held_cons_lookup (ws : list Worker) :
  held ws <> [] -> exists i result, ws !! i = Some (Sending result).
Proof.
  induction ws as [|w0 ws IH]; simpl; [done|]. intros Hheld.
  destruct w0 as [|result|].
  - destruct (IH Hheld) as (i & result & Hi). by exists (S i), result.
  - by exists 0, result.
  - destruct (IH Hheld) as (i & result & Hi). by exists (S i), result.
Qed.

(** Case analysis of a step that was taken. *)
Ltac step_cases H :=
  unfold dnsqueue.step in H;
  repeat match type of H with
         | context [match ?x with _ => _ end] => destruct x eqn:?
         end;
  try discriminate H;
  injection H as <-; simpl in *.

Section Pool.

Variable StringToType : string -> option Z.
Variable Quote : string -> string.
Variable network : nat -> Context -> Msg -> string -> ExchangeReply.

Local Abbreviation SendQuery := (dnsqueue.SendQuery StringToType Quote network).
Local Abbreviation step := (dnsqueue.step StringToType Quote network).
Local Abbreviation run := (dnsqueue.run StringToType Quote network).

Lemma StartQueue_Inv (size0 workers0 : nat) (jobs : list Request) :
  Inv size0 workers0 jobs (StartQueue size0 workers0 jobs).
Proof.
  split; simpl; try done.
  - unfold whereabouts, held. simpl.
    assert (flat_map heldBy (replicate workers0 Ranging) = []) as ->.
    { induction workers0; simpl; auto. }
    done.
  - apply length_replicate.
  - intros Hin. apply elem_of_replicate in Hin as [? _]. done.
Qed.

Lemma step_Inv (size0 workers0 : nat) (jobs : list Request) (a : Action)
    (s s' : State) :
  Inv size0 workers0 jobs s -> step a s = Some s' ->
  Inv size0 workers0 jobs s'.
Proof.
  intros [Hjobs Hans Hexp Hsize Hworkers Hopen Hclosed Hfin Hret] Hstep.
  unfold whereabouts in Hjobs.
  destruct a; step_cases Hstep;
    (split; simpl; unfold whereabouts; simpl; try done;
     try (rewrite ?length_insert; done)).
  - (* Submit *)
    rewrite Hjobs. solve_Permutation.
  - intros Hin. destruct (Hret Hin) as [Hc _]. by rewrite Hopen in Hc.
  - (* SendCompletionSignal *)
    intros Hin. destruct (Hret Hin) as [Hc _]. by rewrite Hopen in Hc.
  - (* Serve *)
    match goal with
    | Hq : dnsqueue.SendQuery _ _ _ ?c ?r ?w = (?res, _, _),
      Hi : workers s !! i = Some Ranging, Hr : Requests s = _ |- _ =>
        pose proof (ExecutorFacts.SendQuery_Req StringToType Quote network
                      c r w) as HReq;
        rewrite Hq in HReq; simpl in HReq;
        pose proof (held_insert _ _ _ (Sending res) Hi) as Hheld
    end.
    simpl in Hheld. rewrite Hheld, Hjobs. simpl. rewrite HReq.
    solve_Permutation.
  - intros Hin.
    match goal with
    | Hi : workers s !! i = Some Ranging |- _ =>
        destruct (elem_of_insert_other _ _ _ _ _ Hi Hin) as [|Hin']; [done|]
    end.
    destruct (Hret Hin') as [_ Hnil]. congruence.
  - (* Publish *)
    match goal with
    | Hi : workers s !! i = Some (Sending ?res) |- _ =>
        pose proof (held_insert _ _ _ Ranging Hi) as Hheld
    end.
    simpl in Hheld. rewrite Hjobs, <- Hheld, map_app. simpl.
    solve_Permutation.
  - intros Hin.
    match goal with
    | Hi : workers s !! i = Some (Sending ?res) |- _ =>
        destruct (elem_of_insert_other _ _ _ _ _ Hi Hin) as [|Hin']; [done|]
    end.
    auto.
  - (* Return *)
    match goal with
    | Hi : workers s !! i = Some Ranging, Hr : Requests s = _ |- _ =>
        pose proof (held_insert _ _ _ Returned Hi) as Hheld
    end.
    simpl in Hheld. by rewrite Hheld.
  - (* Receive *)
    rewrite Hjobs, map_app. simpl. solve_Permutation.
  - rewrite length_app. simpl. lia.
  - (* Break *)
    intros _. by apply Hclosed; rewrite ?Heqp.
  - intros _. by apply Nat.eqb_eq.
Qed.

Lemma run_Inv (size0 workers0 : nat) (jobs : list Request)
    (schedule : list Action) (s s' : State) :
  Inv size0 workers0 jobs s -> run schedule s = Some s' ->
  Inv size0 workers0 jobs s'.
Proof.
  revert s. induction schedule as [|a schedule IH]; intros s HInv Hrun;
    simpl in Hrun.
  - by injection Hrun as <-.
  - destruct (step a s) as [s1|] eqn:Hstep; [|done].
    eauto using step_Inv.
Qed.

Lemma step_stepsLeft (a : Action) (s s' : State) :
  step a s = Some s' -> stepsLeft s' < stepsLeft s.
Proof.
  intros Hstep. unfold stepsLeft.
  destruct a; step_cases Hstep; rewrite ?length_app; simpl;
    repeat match goal with
           | H : phase s = _ |- _ => rewrite H
           | H : todo s = _ |- _ => rewrite H
           | Hi : workers s !! ?i = Some ?w
             |- context [sum_list_with workerWeight (<[?i := ?w']> _)] =>
               pose proof (weight_insert _ _ _ w' Hi); clear Hi
           end; simpl in *; lia.
Qed.

Lemma run_stepsLeft (schedule : list Action) (s s' : State) :
  run schedule s = Some s' -> length schedule + stepsLeft s' <= stepsLeft s.
Proof.
  revert s. induction schedule as [|a schedule IH]; intros s Hrun;
    simpl in Hrun.
  - injection Hrun as <-. simpl. lia.
  - destruct (step a s) as [s1|] eqn:Hstep; [|done].
    apply step_stepsLeft in Hstep. apply IH in Hrun. simpl. lia.
Qed.

Lemma Collecting_progress (size0 workers0 : nat) (jobs : list Request)
    (s : State) :
  0 < size0 -> 0 < workers0 ->
  Inv size0 workers0 jobs s -> phase s = Collecting ->
  exists a s', step a s = Some s'.
Proof.
  intros Hsize0 Hworkers0
    [Hjobs Hans Hexp Hsize Hworkers Hopen Hclosed Hfin Hret] Hphase.
  unfold whereabouts in Hjobs.
  destruct (Hclosed ltac:(by rewrite Hphase)) as [Hcl Htodo].
  destruct (Nat.eqb (answered s) (expected s)) eqn:Hall.
  { exists Break. eexists. unfold dnsqueue.step. by rewrite Hphase, Hall. }
  destruct (Results s) as [|result rest] eqn:HResults.
  2: { exists Receive. eexists. unfold dnsqueue.step.
       by rewrite Hphase, HResults, Hall. }
  destruct (held (workers s)) as [|result rest] eqn:Hheld.
  2: { destruct (held_cons_lookup (workers s)) as (i & r & Hi);
         [by rewrite Hheld|].
       exists (Publish i). eexists. unfold dnsqueue.step.
       rewrite Hi, HResults, Hsize. simpl.
       by destruct size0; [lia|]. }
  destruct (Requests s) as [|request rest] eqn:HRequests.
  2: { destruct (lookup_lt_is_Some_2 (workers s) 0) as [w Hw]; [lia|].
       assert (w = Ranging) as ->.
       { destruct w as [|r|]; [done| |].
         - exfalso. by eapply (held_nil_lookup (workers s) 0).
         - destruct Hret as [_ ?]; [by eapply list_elem_of_lookup_2|done]. }
       destruct (SendQuery (ctxToUse request) request (wire s))
         as [[r e] w'] eqn:Hq.
       exists (Serve 0). eexists. unfold dnsqueue.step.
       rewrite Hw, HRequests. simpl. by rewrite Hq. }
  exfalso. rewrite Htodo in Hjobs. simpl in Hjobs.
  rewrite app_nil_r in Hjobs. apply Permutation_length in Hjobs.
  rewrite length_map in Hjobs. apply Nat.eqb_neq in Hall. congruence.
Qed.

Lemma Inv_received (size0 workers0 : nat) (jobs : list Request) (s : State) :
  Inv size0 workers0 jobs s ->
  map Req (currentNsResults s) ⊆+ jobs
  /\ (phase s = Finished ->
      length (currentNsResults s) = length jobs
      /\ map Req (currentNsResults s) ≡ₚ jobs).
Proof.
  intros [Hjobs Hans Hexp Hsize Hworkers Hopen Hclosed Hfin Hret].
  unfold whereabouts in Hjobs.
  assert (Hsub : map Req (currentNsResults s) ⊆+ jobs).
  { rewrite Hjobs. apply submseteq_inserts_r. done. }
  split; [done|]. intros Hphase.
  assert (Hlen : length (currentNsResults s) = length jobs).
  { rewrite <- Hans, <- Hexp. auto. }
  split; [done|].
  apply submseteq_length_Permutation; [done|].
  rewrite length_map. lia.
Qed.

Lemma ctxToUse_not_nil (request : Request) : ctxToUse request <> None.
Proof. unfold ctxToUse. by destruct (Ctx request). Qed.

Lemma step_contextsGiven (a : Action) (s s' : State) :
  contextsGiven s -> step a s = Some s' -> contextsGiven s'.
Proof.
  intros [Hcalls Hwire] Hstep.
  destruct a; step_cases Hstep; split; simpl; try done.
  - apply Forall_app. split; [done|].
    constructor; [apply ctxToUse_not_nil|constructor].
  - match goal with
    | Hq : dnsqueue.SendQuery _ _ _ ?c ?r ?w = (_, _, ?w') |- _ =>
        destruct (ExecutorFacts.SendQuery_wire StringToType Quote network
                    c r w) as [Hw|[m Hw]];
        rewrite Hq in Hw; simpl in Hw; subst w'
    end; [done|].
    apply Forall_app. split; [done|].
    constructor; [apply ctxToUse_not_nil|constructor].
Qed.

Lemma run_contextsGiven (schedule : list Action) (s s' : State) :
  contextsGiven s -> run schedule s = Some s' -> contextsGiven s'.
Proof.
  revert s. induction schedule as [|a schedule IH]; intros s Hs Hrun;
    simpl in Hrun.
  - by injection Hrun as <-.
  - destruct (step a s) as [s1|] eqn:Hstep; [|done].
    eauto using step_contextsGiven.
Qed.

(** What the workers pass to [SendQuery] are requests of the batch. *)
Lemma step_calls_submitted (size0 workers0 : nat) (jobs : list Request)
    (a : Action) (s s' : State) :
  Inv size0 workers0 jobs s ->
  Forall (fun call : Context * Request => call.2 ∈ jobs) (calls s) ->
  step a s = Some s' ->
  Forall (fun call : Context * Request => call.2 ∈ jobs) (calls s').
Proof.
  intros [Hjobs _ _ _ _ _ _ _ _] Hcalls Hstep.
  unfold whereabouts in Hjobs.
  destruct a; step_cases Hstep; try done.
  apply Forall_app. split; [done|]. constructor; [|constructor]. simpl.
  rewrite Hjobs. rewrite !elem_of_app. do 3 right. by left.
Qed.

Lemma run_calls_submitted (size0 workers0 : nat) (jobs : list Request)
    (schedule : list Action) (s s' : State) :
  Inv size0 workers0 jobs s ->
  Forall (fun call : Context * Request => call.2 ∈ jobs) (calls s) ->
  run schedule s = Some s' ->
  Forall (fun call : Context * Request => call.2 ∈ jobs) (calls s').
Proof.
  revert s. induction schedule as [|a schedule IH]; intros s HInv Hcalls Hrun;
    simpl in Hrun.
  - by injection Hrun as <-.
  - destruct (step a s) as [s1|] eqn:Hstep; [|done].
    eauto using step_Inv, step_calls_submitted.
Qed.

Lemma StartQueue_calls_submitted (size0 workers0 : nat)
    (jobs : list Request) (schedule : list Action) (s : State) :
  run schedule (StartQueue size0 workers0 jobs) = Some s ->
  Forall (fun call : Context * Request => call.2 ∈ jobs) (calls s).
Proof.
  apply run_calls_submitted with (size0 := size0) (workers0 := workers0);
    [apply StartQueue_Inv|constructor].
Qed.

Lemma step_wellFormed (a : Action) (s s' : State) :
  ExecutorDefs.elapsedNonNegative network ->
  Forall ExecutorDefs.wellFormed (produced s) ->
  step a s = Some s' ->
  Forall ExecutorDefs.wellFormed (produced s').
Proof.
  intros Hrtt Hs Hstep. unfold produced in *.
  destruct a; step_cases Hstep; try done;
    apply Forall_forall; intros x Hx; rewrite Forall_forall in Hs.
  - (* Serve *)
    match goal with
    | Hq : dnsqueue.SendQuery _ _ _ ?c ?r ?w = (?res, _, _),
      Hi : workers s !! i = Some Ranging |- _ =>
        pose proof (ExecutorFacts.SendQuery_wellFormed StringToType Quote
                      network c r w Hrtt) as Hres;
        rewrite Hq in Hres; simpl in Hres;
        pose proof (held_insert _ _ _ (Sending res) Hi) as Hheld
    end.
    simpl in Hheld. rewrite Hheld in Hx.
    rewrite !elem_of_app, elem_of_cons in Hx.
    destruct Hx as [Hx|[Hx|[->|Hx]]]; [| |done|];
      apply Hs; rewrite !elem_of_app; tauto.
  - (* Publish *)
    match goal with
    | Hi : workers s !! i = Some (Sending ?res) |- _ =>
        pose proof (held_insert _ _ _ Ranging Hi) as Hheld
    end.
    simpl in Hheld. apply Hs. rewrite <- Hheld.
    repeat (rewrite elem_of_app in Hx || rewrite elem_of_cons in Hx).
    repeat (rewrite elem_of_app || rewrite elem_of_cons).
    rewrite elem_of_nil in Hx. tauto.
  - (* Return *)
    match goal with
    | Hi : workers s !! i = Some Ranging |- _ =>
        pose proof (held_insert _ _ _ Returned Hi) as Hheld
    end.
    simpl in Hheld. apply Hs. by rewrite <- Hheld.
  - (* Receive *)
    apply Hs.
    repeat (rewrite elem_of_app in Hx || rewrite elem_of_cons in Hx).
    repeat (rewrite elem_of_app || rewrite elem_of_cons).
    rewrite elem_of_nil in Hx. tauto.
Qed.

Lemma run_wellFormed (schedule : list Action) (s s' : State) :
  ExecutorDefs.elapsedNonNegative network ->
  Forall ExecutorDefs.wellFormed (produced s) ->
  run schedule s = Some s' ->
  Forall ExecutorDefs.wellFormed (produced s').
Proof.
  intros Hrtt. revert s.
  induction schedule as [|a schedule IH]; intros s Hs Hrun; simpl in Hrun.
  - by injection Hrun as <-.
  - destruct (step a s) as [s1|] eqn:Hstep; [|done].
    eauto using step_wellFormed.
Qed.

Lemma StartQueue_produced (size0 workers0 : nat) (jobs : list Request) :
  produced (StartQueue size0 workers0 jobs) = [].
Proof.
  unfold produced, held. simpl. induction workers0; simpl; auto.
Qed.

(** C5: a result of [SendQuery] with a failure description has no
    answers, and one without has an elapsed time that is not negative
    (the round-trip time the transport measured); so it is with every
    result a caller of the queue receives. *)
Theorem SendQuery_failure_or_elapsed (ctx : Context) (request : Request)
    (w : Wire) (size0 workers0 : nat) (jobs : list Request)
    (schedule : list Action) (s : State) :
  ExecutorDefs.elapsedNonNegative network ->
  (let result := (SendQuery ctx request w).1.1 in
   (Error result <> "" -> Answers result = [])
   /\ (Error result = "" -> (0 <= Duration result)%Z))
  /\ (run schedule (StartQueue size0 workers0 jobs) = Some s ->
      Forall (fun result =>
                (Error result <> "" -> Answers result = [])
                /\ (Error result = "" -> (0 <= Duration result)%Z))
             (currentNsResults s)).
Proof.
  intros Hrtt. split.
  - by apply ExecutorFacts.SendQuery_wellFormed.
  - intros Hrun.
    pose proof (run_wellFormed schedule _ s Hrtt
                  ltac:(rewrite StartQueue_produced; constructor) Hrun)
      as Hproduced.
    unfold produced in Hproduced.
    by apply Forall_app in Hproduced as [? _].
Qed.

(** C1: once the [N] jobs of a batch are in the queue and the completion
    signal is sent, the results received so far belong to distinct jobs
    of the batch; as long as the collection loop has not ended some
    goroutine can take a step, and no run is longer than [stepsLeft]; and
    when the loop ends it has received exactly [N] results, one per job,
    whatever the network and the record type made of each query. *)
Theorem collection_receives_one_result_per_job (size0 workers0 : nat)
    (jobs : list Request) (schedule : list Action) (s : State) :
  0 < size0 -> 0 < workers0 ->
  run schedule (StartQueue size0 workers0 jobs) = Some s ->
  phase s <> Dispatching ->
  (map Req (currentNsResults s) ⊆+ jobs
   /\ answered s = length (currentNsResults s))
  /\ (phase s <> Finished -> exists a s', step a s = Some s')
  /\ (forall schedule' s',
        run schedule' s = Some s' -> length schedule' <= stepsLeft s)
  /\ (phase s = Finished ->
      length (currentNsResults s) = length jobs
      /\ map Req (currentNsResults s) ≡ₚ jobs).
Proof.
  intros Hsize0 Hworkers0 Hrun Hphase.
  pose proof (run_Inv _ _ _ _ _ _ (StartQueue_Inv size0 workers0 jobs) Hrun)
    as HInv.
  destruct (Inv_received _ _ _ _ HInv) as [Hsub Hfin].
  split; [split; [done|by destruct HInv]|].
  split.
  { intros Hnot.
    apply (Collecting_progress size0 workers0 jobs s Hsize0 Hworkers0 HInv).
    destruct (phase s); congruence. }
  split; [|done].
  intros schedule' s' Hrun'. apply run_stepsLeft in Hrun'. lia.
Qed.

(** C10: [Add] replaces a nil context by [context.Background()], and so
    does a worker for a request that reached the channel with a nil
    [Ctx]; in every run of the queue, whatever the requests sent to it,
    [SendQuery] and the transport are given a context that is not nil. *)
Theorem SendQuery_context_never_nil :
  (forall dest record_type record_name verifySignature,
     Ctx (Add_request None dest record_type record_name verifySignature)
     = Some Background)
  /\ (forall ctx dest record_type record_name verifySignature,
        Ctx (Add_request ctx dest record_type record_name verifySignature)
        <> None)
  /\ (forall request, Ctx request = None -> ctxToUse request = Some Background)
  /\ (forall size0 workers0 jobs schedule s,
        run schedule (StartQueue size0 workers0 jobs) = Some s ->
        Forall (fun call : Context * Request => call.1 <> None) (calls s)
        /\ Forall (fun exchange => ex_ctx exchange <> None) (wire s)).
Proof.
  repeat split.
  - intros ctx dest record_type record_name verifySignature.
    by destruct ctx.
  - intros request Hnil. unfold ctxToUse. by rewrite Hnil.
  - eapply (run_contextsGiven schedule (StartQueue size0 workers0 jobs));
      [by split; constructor|done].
  - eapply (run_contextsGiven schedule (StartQueue size0 workers0 jobs));
      [by split; constructor|done].
Qed.

End Pool.

(** Three jobs, the second of which times out: three results. *)
Lemma collection_receives_one_result_per_job_witness :
  exists s,
    run ExecutorDefs.someTypes ExecutorDefs.quotePlain everyOther exampleSchedule
        (StartQueue 1 2
           (namebench.cliJobs (Some Background) "8.8.8.8:53" "A" false
                              exampleDomains))
    = Some s
    /\ phase s = Finished
    /\ map (fun result => String.eqb (Error result) "") (currentNsResults s)
       = [true; false; true]
    /\ length (currentNsResults s) = 3
    /\ map Req (currentNsResults s)
       ≡ₚ namebench.cliJobs (Some Background) "8.8.8.8:53" "A" false
                            exampleDomains.
Proof.
  eexists. split; [vm_compute; reflexivity|].
  match goal with
  | |- phase ?final = _ /\ _ =>
      pose proof (collection_receives_one_result_per_job
                    ExecutorDefs.someTypes ExecutorDefs.quotePlain everyOther 1 2
                    (namebench.cliJobs (Some Background) "8.8.8.8:53" "A"
                                       false exampleDomains)
                    exampleSchedule final
                    ltac:(lia) ltac:(lia) eq_refl ltac:(discriminate))
        as (_ & _ & _ & Hfinished)
  end.
  destruct (Hfinished eq_refl) as [Hlength Hjobs].
  split; [reflexivity|]. split; [reflexivity|].
  split; [exact Hlength|exact Hjobs].
Defined.

(** The older copy of the orchestrator sends requests whose [Ctx] is nil:
    the workers call [SendQuery] with [context.Background()]. *)
Lemma SendQuery_context_never_nil_witness :
  exists s,
    run ExecutorDefs.someTypes ExecutorDefs.quotePlain everyOther exampleSchedule
        (StartQueue 1 2
           (namebench.cliJobs None "8.8.8.8:53" "A" false exampleDomains))
    = Some s
    /\ map fst (calls s)
       = [Some Background; Some Background; Some Background]
    /\ Forall (fun call : Context * Request => call.1 <> None) (calls s)
    /\ Forall (fun exchange => ex_ctx exchange <> None) (wire s).
Proof.
  eexists. split; [vm_compute; reflexivity|].
  split; [reflexivity|].
  match goal with
  | |- Forall _ (calls ?final) /\ _ =>
      exact (proj2 (proj2 (proj2 (SendQuery_context_never_nil
               ExecutorDefs.someTypes ExecutorDefs.quotePlain everyOther)))
               1 2
               (namebench.cliJobs None "8.8.8.8:53" "A" false exampleDomains)
               exampleSchedule final eq_refl)
  end.
Defined.

(** The design document's round trip: type "A" and the name
    "example.com." against a server returning one A record give one
    answer with that owner name, after a time that is not negative. *)
Lemma SendQuery_failure_or_elapsed_witness :
  ExecutorDefs.elapsedNonNegative ExecutorDefs.oneRecord
  /\ (let result :=
        (SendQuery ExecutorDefs.someTypes ExecutorDefs.quotePlain
                   ExecutorDefs.oneRecord (Some Background)
                   (ExecutorDefs.exampleRequest "A") []).1.1 in
      Error result = "" /\ (0 <= Duration result)%Z
      /\ map Name (Answers result) = ["example.com."]).
Proof.
  assert (Hrtt : ExecutorDefs.elapsedNonNegative ExecutorDefs.oneRecord).
  { intros n ctx m a in_Answer rtt [= _ <-]. lia. }
  split; [exact Hrtt|].
  pose proof (SendQuery_failure_or_elapsed ExecutorDefs.someTypes
                ExecutorDefs.quotePlain ExecutorDefs.oneRecord
                (Some Background) (ExecutorDefs.exampleRequest "A") []
                1 2 [] [] (StartQueue 1 2 []) Hrtt) as [[_ Hok] _].
  split; [reflexivity|]. split; [exact (Hok eq_refl)|reflexivity].
Defined.

End PoolFacts.

(** ** The jobs *)

Module JobFacts.
Import dnsqueue ui namebench.
Import JobDefs.

Lemma lastByteIs_append (c : ascii) (s : string) :
  lastByteIs c (s ++ String c EmptyString) = true.
Proof.
  induction s as [|b s IH]; simpl.
  - apply Ascii.eqb_refl.
  - destruct (s ++ String c "")%string eqn:E; [|done].
    by destruct s.
Qed.

Lemma cliJobs_separator (benchmarkCtx : Context) (ns record_type : string)
    (dnssec : bool) (selectedDomains : list string) (request : Request) :
  request ∈ cliJobs benchmarkCtx ns record_type dnssec selectedDomains ->
  lastByteIs "." (RecordName request) = true.
Proof.
  intros Hin. apply list_elem_of_In, in_map_iff in Hin as (domain & <- & _).
  apply lastByteIs_append.
Qed.

Lemma SubmitJobs_separator (hostnames : list string) (request : Request) :
  request ∈ SubmitJobs hostnames ->
  lastByteIs "." (RecordName request) = true.
Proof.
  intros Hin. apply list_elem_of_In, in_map_iff in Hin as (record & <- & _).
  apply lastByteIs_append.
Qed.

Section Jobs.

Variable StringToType : string -> option Z.
Variable Quote : string -> string.
Variable network : nat -> Context -> Msg -> string -> ExchangeReply.

Local Abbreviation run := (dnsqueue.run StringToType Quote network).

(** C9: the requests the CLI orchestrator sends, and the requests the UI
    handler adds, carry each selected name followed by ["."]; and in
    every run of a queue fed with them, the requests the workers hand to
    [SendQuery], which does not touch the name, end with the
    separator. *)
Theorem jobs_fully_qualified (benchmarkCtx : Context) (ns record_type : string)
    (dnssec : bool) (selectedDomains hostnames : list string) :
  map RecordName (cliJobs benchmarkCtx ns record_type dnssec selectedDomains)
    = map (fun domain => (domain ++ ".")%string) selectedDomains
  /\ map RecordName (SubmitJobs hostnames)
    = map (fun record => (record ++ ".")%string) hostnames
  /\ (forall (jobs : list Request) (size0 workers0 : nat)
             (schedule : list Action) (s : State),
        jobs = cliJobs benchmarkCtx ns record_type dnssec selectedDomains
        \/ jobs = SubmitJobs hostnames ->
        run schedule (StartQueue size0 workers0 jobs) = Some s ->
        Forall (fun call : Context * Request =>
                  lastByteIs "." (RecordName call.2) = true) (calls s)).
Proof.
  split; [|split].
  - unfold cliJobs. by rewrite map_map.
  - unfold SubmitJobs. by rewrite map_map.
  - intros jobs size0 workers0 schedule s Hjobs Hrun.
    eapply Forall_impl;
      [exact (PoolFacts.StartQueue_calls_submitted StringToType Quote network
                size0 workers0 jobs schedule s Hrun)|].
    intros [ctx request] Hin. simpl in *.
    destruct Hjobs as [->| ->];
      eauto using cliJobs_separator, SubmitJobs_separator.
Qed.

End Jobs.

(** The three example domains through a queue of size 1 with two
    workers: the names asked for. *)
Lemma jobs_fully_qualified_witness :
  exists s,
    run ExecutorDefs.someTypes ExecutorDefs.quotePlain PoolDefs.everyOther
        PoolDefs.exampleSchedule
        (StartQueue 1 2
           (cliJobs (Some Background) "8.8.8.8:53" "A" false
                    PoolDefs.exampleDomains))
    = Some s
    /\ map (fun call : Context * Request => RecordName call.2) (calls s)
       = ["google.com."; "cloudflare.com."; "amazon.com."]
    /\ Forall (fun call : Context * Request =>
                 lastByteIs "." (RecordName call.2) = true) (calls s).
Proof.
  eexists. split; [vm_compute; reflexivity|].
  split; [reflexivity|].
  match goal with
  | |- Forall _ (calls ?final) =>
      exact (proj2 (proj2
               (jobs_fully_qualified ExecutorDefs.someTypes
                  ExecutorDefs.quotePlain PoolDefs.everyOther
                  (Some Background) "8.8.8.8:53" "A" false
                  PoolDefs.exampleDomains []))
               _ 1%nat 2%nat PoolDefs.exampleSchedule final
               (or_introl eq_refl) eq_refl)
  end.
Defined.

End JobFacts.

(** ** Sorting *)

Module SortFacts.
Import namebench.
Local Open Scope Z_scope.
Import SortDefs.

Section InsertionSort.

Context {A : Type}.
Variable less : A -> A -> bool.

(** The order of the positions in the slice before the sort. *)
Variable earlier : A -> A -> Prop.

Hypothesis Hless : StrictWeak less.

Local Abbreviation before := (SortDefs.before less earlier).

Lemma less_asym (a b : A) : less a b = true -> less b a = false.
Proof.
  intros Hab. destruct (less b a) eqn:Hba; [|done].
  pose proof (less_trans Hless _ _ _ Hab Hba) as Haa.
  by rewrite (less_irrefl Hless) in Haa.
Qed.

Lemma before_not_less (a b : A) : before a b -> less b a = false.
Proof. intros [Hab|[Hba _]]; [by apply less_asym|done]. Qed.

Lemma insertLeft_Permutation (x : A) (sorted : list A) :
  insertLeft less x sorted ≡ₚ x :: sorted.
Proof.
  induction sorted as [|y sorted IH]; simpl; [done|].
  destruct (less x y); [|done]. rewrite IH. apply Permutation_swap.
Qed.

Lemma insertLeft_before (x : A) (sorted : list A) :
  Forall (fun z => earlier z x) sorted ->
  StronglySorted (flip before) sorted ->
  StronglySorted (flip before) (insertLeft less x sorted).
Proof.
  induction sorted as [|y sorted IH]; intros Hearlier Hsorted; simpl.
  - repeat constructor.
  - apply Forall_cons in Hearlier as [Hy Hearlier].
    apply StronglySorted_inv in Hsorted as [Hsorted Hall].
    destruct (less x y) eqn:Hxy.
    + constructor; [by apply IH|].
      rewrite insertLeft_Permutation. constructor; [by left|done].
    + constructor; [by constructor|].
      constructor; [by right|].
      apply Forall_forall. intros z Hz.
      rewrite Forall_forall in Hall. rewrite Forall_forall in Hearlier.
      right. split; [|by apply Hearlier].
      eapply (less_incomparable Hless x y z); [done|].
      apply before_not_less. by apply Hall.
Qed.

Lemma insertion_before (data sorted : list A) :
  StronglySorted earlier data ->
  (forall z x, z ∈ sorted -> x ∈ data -> earlier z x) ->
  StronglySorted (flip before) sorted ->
  StronglySorted (flip before)
    (fold_left (fun sorted x => insertLeft less x sorted) data sorted).
Proof.
  revert sorted.
  induction data as [|x data IH]; intros sorted Hdata Hearlier Hsorted;
    simpl; [done|].
  apply StronglySorted_inv in Hdata as [Hdata Hx].
  apply IH; [done| |].
  - intros z x' Hz Hx'. rewrite insertLeft_Permutation in Hz.
    apply elem_of_cons in Hz as [->|Hz].
    + rewrite Forall_forall in Hx. by apply Hx.
    + apply Hearlier; [done|by right].
  - apply insertLeft_before; [|done].
    apply Forall_forall. intros z Hz. apply Hearlier; [done|by left].
Qed.

Lemma insertion_Permutation (data sorted : list A) :
  fold_left (fun sorted x => insertLeft less x sorted) data sorted
  ≡ₚ sorted ++ data.
Proof.
  revert sorted. induction data as [|x data IH]; intros sorted; simpl.
  - by rewrite app_nil_r.
  - rewrite IH, insertLeft_Permutation. solve_Permutation.
Qed.

Lemma StronglySorted_rev (R : A -> A -> Prop) (l : list A) :
  StronglySorted (flip R) l -> StronglySorted R (rev l).
Proof.
  induction 1 as [|x l Hl IH Hx]; simpl; [by constructor|].
  apply StronglySorted_app. split_and!; [|done|by repeat constructor].
  intros x1 x2 Hx1 Hx2. apply list_elem_of_singleton in Hx2 as ->.
  rewrite Forall_forall in Hx. apply Hx.
  apply list_elem_of_In. apply in_rev. by apply list_elem_of_In.
Qed.

(** [insertionSort_func] permutes the slice. *)
Lemma insertionSort_Permutation (data : list A) :
  insertionSort_func less data ≡ₚ data.
Proof.
  unfold insertionSort_func.
  by rewrite <- Permutation_rev, insertion_Permutation.
Qed.

(** [insertionSort_func] is stable: on a slice whose positions follow
    [earlier], the outcome is ordered by [less] and, where [less] does
    not tell, by [earlier]. *)
Lemma insertionSort_stable (data : list A) :
  StronglySorted earlier data ->
  StronglySorted before (insertionSort_func less data).
Proof.
  intros Hdata. apply StronglySorted_rev.
  apply insertion_before; [done| |constructor].
  intros z x Hz. by apply elem_of_nil in Hz.
Qed.

End InsertionSort.

Ltac bool_cases :=
  repeat match goal with
         | |- context [Qeq_bool ?x ?y] =>
             let E := fresh "E" in
             destruct (Qeq_bool x y) eqn:E;
             [apply Qeq_bool_iff in E|apply Qeq_bool_neq in E]; simpl
         | |- context [Qle_bool ?x ?y] =>
             let E := fresh "E" in
             destruct (Qle_bool x y) eqn:E;
             [apply Qle_bool_iff in E
             |apply not_true_iff_false in E; rewrite Qle_bool_iff in E;
              apply Qnot_le_lt in E]; simpl
         | |- context [Z.ltb ?x ?y] =>
             destruct (Z.ltb_spec x y); simpl
         end.

Ltac less_cases :=
  unfold less, Qlt_bool;
  repeat match goal with
         | |- context [AverageMs ?e] => generalize (AverageMs e); intro
         | |- context [SuccessfulQueries ?e] =>
             generalize (SuccessfulQueries e); intro
         end;
  bool_cases; intros; try done; exfalso; first [lra|lia].

(** The function given to [sort.Slice] is a strict weak order. *)
Lemma less_StrictWeak : StrictWeak less.
Proof.
  split.
  - intros a. less_cases.
  - intros a b c. less_cases.
  - intros a b c. less_cases.
Qed.

End SortFacts.

(** ** The report *)

Module ReportFacts.
Import dnsqueue namebench SortDefs SortFacts.
Local Open Scope Z_scope.
Import ReportDefs.

(** [less] of package [strings]/[sort.Strings]: the byte-wise order. *)
Lemma ltb_StrictWeak : StrictWeak String.ltb.
Proof.
  assert (Hlt : forall a b, String.ltb a b = true <-> OrderedTypeEx.String_as_OT.lt a b).
  { intros a b. rewrite <- OrderedTypeEx.String_as_OT.cmp_lt. unfold String.ltb,
      OrderedTypeEx.String_as_OT.cmp. by destruct (String.compare a b). }
  split.
  - intros a. unfold String.ltb.
    pose proof (proj2 (OrderedTypeEx.String_as_OT.cmp_eq a a) eq_refl) as Heq.
    unfold OrderedTypeEx.String_as_OT.cmp in Heq. by rewrite Heq.
  - intros a b c Hab Hbc. apply Hlt. apply Hlt in Hab, Hbc.
    eapply OrderedTypeEx.String_as_OT.lt_trans; eauto.
  - intros a b c Hab Hbc.
    destruct (String.ltb a c) eqn:Hac; [exfalso|done].
    unfold String.ltb in Hbc.
    destruct (String.compare b c) eqn:Hcmp; [| done |].
    + apply OrderedTypeEx.String_as_OT.cmp_eq in Hcmp as ->. congruence.
    + assert (Hcb : String.ltb c b = true).
      { unfold String.ltb. rewrite String.compare_antisym, Hcmp. done. }
      apply Hlt in Hac, Hcb. pose proof (OrderedTypeEx.String_as_OT.lt_trans _ _ _ Hac Hcb) as H.
      apply Hlt in H. congruence.
Qed.

Lemma ltb_total (a b : string) :
  a <> b -> String.ltb b a = false -> String.ltb a b = true.
Proof.
  unfold String.ltb. intros Hne.
  rewrite (String.compare_antisym b a).
  destruct (String.compare a b) eqn:Hcmp; simpl; try done.
  by apply OrderedTypeEx.String_as_OT.cmp_eq in Hcmp.
Qed.

Lemma StronglySorted_any {A} (l : list A) :
  StronglySorted (fun _ _ : A => True) l.
Proof.
  induction l; constructor; [done|]. by apply Forall_forall.
Qed.

(** The keys of [allResults], sorted: strictly ascending. *)
Lemma sortedNameservers_ascending (m : gmap string (list Result)) :
  StronglySorted (fun a b => String.ltb a b = true) (sortedNameservers m).
Proof.
  unfold sortedNameservers, sort_Strings.
  assert (Hnodup : NoDup (insertionSort_func String.ltb
                            (map fst (map_to_list m)))).
  { rewrite (insertionSort_Permutation String.ltb).
    apply (NoDup_fst_map_to_list m). }
  pose proof (insertionSort_stable String.ltb (fun _ _ => True)
                ltb_StrictWeak (map fst (map_to_list m))
                (StronglySorted_any _)) as Hsorted.
  revert Hnodup Hsorted.
  generalize (insertionSort_func String.ltb (map fst (map_to_list m))).
  intros l Hnodup Hsorted. revert Hnodup.
  induction Hsorted as [|x l Hl IH Hx]; intros Hnodup; [apply SSorted_nil|].
  apply NoDup_cons in Hnodup as [Hnotin Hnodup].
  constructor; [auto|].
  apply Forall_forall. intros y Hy. rewrite Forall_forall in Hx.
  destruct (Hx y Hy) as [|[Hyx _]]; [done|].
  apply ltb_total; [|done]. by intros ->.
Qed.

Lemma summaryData_ascending (m : gmap string (list Result)) :
  StronglySorted earlierName (summaryData m).
Proof.
  unfold summaryData.
  induction (sortedNameservers_ascending m) as [|ns l Hl IH Hns]; simpl;
    [apply SSorted_nil|].
  constructor; [done|].
  apply List.Forall_map. by eapply Forall_impl.
Qed.

(** The loop over the results counts the successes and leaves the
    failures out of both totals. *)
Lemma tally_successes (results : list Result) (acc : Z * Z) :
  (fold_left tally results acc).2
  = acc.2 + Z.of_nat (length (List.filter successful results)).
Proof.
  revert acc. induction results as [|result results IH]; intros acc; simpl.
  - lia.
  - rewrite IH. unfold tally, successful.
    destruct (String.eqb (Error result) ""); simpl; lia.
Qed.

Lemma tally_failures_ignored (results : list Result) (acc : Z * Z) :
  fold_left tally results acc
  = fold_left tally (List.filter successful results) acc.
Proof.
  revert acc. induction results as [|result results IH]; intros acc; simpl;
    [done|].
  unfold successful at 1. unfold tally at 2.
  destruct (String.eqb (Error result) "") eqn:Hok; simpl; [|done].
  rewrite IH. unfold tally at 3. by rewrite Hok.
Qed.

Lemma summaryEntry_SuccessfulQueries (ns : string) (results : list Result) :
  SuccessfulQueries (summaryEntry ns results)
  = Z.of_nat (length (List.filter successful results)).
Proof. unfold summaryEntry. simpl. by rewrite tally_successes. Qed.

(** Without a success the average of an entry is the number 0. *)
Lemma summaryEntry_no_success (ns : string) (results : list Result) :
  SuccessfulQueries (summaryEntry ns results) = 0 ->
  AverageMs (summaryEntry ns results) = 0%Q.
Proof. unfold summaryEntry, avgMs. simpl. by intros ->. Qed.

Lemma summaryEntry_counts (ns : string) (results : list Result) :
  0 <= SuccessfulQueries (summaryEntry ns results).
Proof. rewrite summaryEntry_SuccessfulQueries. lia. Qed.

Lemma no_success_iff (results : list Result) :
  List.filter successful results = []
  <-> Forall (fun result => Error result <> "") results.
Proof.
  induction results as [|result results IH]; simpl; [done|].
  unfold successful at 1.
  destruct (String.eqb_spec (Error result) "") as [Hok|Hfailed].
  - split; [done|]. intros Hall. by apply Forall_cons in Hall as [? _].
  - rewrite IH. split; [by constructor|].
    intros Hall. by apply Forall_cons in Hall as [_ ?].
Qed.

Lemma summaryData_invariant (m : gmap string (list Result)) :
  Forall summaryInvariant (summaryData m).
Proof.
  unfold summaryData. apply List.Forall_map. apply Forall_forall.
  intros ns _. split;
    [apply summaryEntry_counts|apply summaryEntry_no_success].
Qed.

(** The entries printed as fastest had a success. *)
Lemma fastestLoop_successful (fastestAvg : Q) (entries : list SummaryEntry) :
  Forall (fun entry => 0 < SuccessfulQueries entry)
         (fastestLoop fastestAvg entries).
Proof.
  induction entries as [|entry entries IH]; simpl; [constructor|].
  destruct (Qeq_bool (AverageMs entry) fastestAvg
            && (0 <? SuccessfulQueries entry)) eqn:Hprinted.
  - constructor; [|done].
    apply andb_true_iff in Hprinted as [_ Hok]. lia.
  - destruct (Qlt_bool fastestAvg (AverageMs entry) && _);
      [constructor|done].
Qed.

(** *** The mean *)

(** C3: for two successful results of 600 microseconds each the summary
    reports 0.5 ms, not their mean of 0.6 ms: the total is cut to whole
    milliseconds before it is divided (the benchmarking loop logs the
    mean to the nanosecond, 600000). *)
Theorem AverageMs_cuts_total_to_milliseconds :
  AverageMs (summaryEntry "10.0.0.1:53" twoQuickAnswers) = (1 # 2)%Q
  /\ Qeq (exactMeanMs twoQuickAnswers) (3 # 5)
  /\ ~ Qeq (AverageMs (summaryEntry "10.0.0.1:53" twoQuickAnswers))
           (exactMeanMs twoQuickAnswers)
  /\ loggedAverage twoQuickAnswers = 600000.
Proof. vm_compute. repeat split; discriminate. Qed.



(** *** A nameserver without a success *)

(** C4, counterexample: the entry of a nameserver whose three queries
    timed out has the average 0, the very number the entry of a
    nameserver that answered in 0.4 ms has. *)
Lemma no_success_average_is_zero :
  AverageMs (summaryEntry "192.0.2.1:53"
               (threeResults ExecutorDefs.timesOut "192.0.2.1:53"))
  = 0%Q
  /\ SuccessfulQueries
       (summaryEntry "192.0.2.1:53"
          (threeResults ExecutorDefs.timesOut "192.0.2.1:53")) = 0
  /\ AverageMs (summaryEntry "127.0.0.1:53"
                  [resultVia (answering 400000) "127.0.0.1:53" "google.com"])
     = 0%Q.
Proof. by vm_compute. Qed.

(** C4, as the code has it: for a nameserver without a successful result
    the mean of the summary is the number 0, the zero value of the field;
    what marks the case is [SuccessfulQueries = 0], which holds for these
    nameservers only, and no such entry is printed among the fastest. *)
Theorem no_success_marked_by_count (ns : string) (results : list Result)
    (entries : list SummaryEntry) :
  (Forall (fun result => Error result <> "") results ->
   AverageMs (summaryEntry ns results) = 0%Q
   /\ SuccessfulQueries (summaryEntry ns results) = 0)
  /\ (SuccessfulQueries (summaryEntry ns results) = 0 ->
      Forall (fun result => Error result <> "") results)
  /\ Forall (fun entry => SuccessfulQueries entry <> 0) (fastest entries).
Proof.
  split; [|split].
  - intros Hnone. apply no_success_iff in Hnone.
    assert (Hcount : SuccessfulQueries (summaryEntry ns results) = 0).
    { rewrite summaryEntry_SuccessfulQueries. by rewrite Hnone. }
    split; [|done]. by apply summaryEntry_no_success.
  - rewrite summaryEntry_SuccessfulQueries. intros Hcount.
    apply no_success_iff.
    destruct (List.filter successful results); [done|].
    simpl in Hcount. lia.
  - unfold fastest. destruct entries as [|first rest]; [constructor|].
    eapply Forall_impl; [apply fastestLoop_successful|].
    intros entry. simpl. lia.
Qed.

Lemma no_success_marked_by_count_witness :
  Forall (fun result => Error result <> "")
         (threeResults ExecutorDefs.timesOut "192.0.2.1:53")
  /\ AverageMs (summaryEntry "192.0.2.1:53"
                  (threeResults ExecutorDefs.timesOut "192.0.2.1:53"))
     = 0%Q
  /\ SuccessfulQueries
       (summaryEntry "192.0.2.1:53"
          (threeResults ExecutorDefs.timesOut "192.0.2.1:53")) = 0.
Proof.
  assert (Hfailed : Forall (fun result => Error result <> "")
                      (threeResults ExecutorDefs.timesOut "192.0.2.1:53")).
  { repeat constructor; discriminate. }
  split; [exact Hfailed|].
  exact (proj1 (no_success_marked_by_count "192.0.2.1:53"
                  (threeResults ExecutorDefs.timesOut "192.0.2.1:53") [])
               Hfailed).
Defined.

(** *** The fastest nameservers *)

(** C7: when one nameserver answers in 0.4 ms and another in 5 ms, the
    report names the second as the fastest; the first has a success and
    the smallest mean (0, as the summary computes it). *)
Theorem fastest_misses_zero_average
    (pdqsort_large : (SummaryEntry -> SummaryEntry -> bool) ->
                     list SummaryEntry -> list SummaryEntry) :
  map Nameserver (fastest (ranked pdqsort_large slowAndQuick))
  = ["10.0.0.2:53"]
  /\ map Nameserver (fastestAsDescribed (ranked pdqsort_large slowAndQuick))
     = ["10.0.0.1:53"]
  /\ map (fun entry => (Nameserver entry, AverageMs entry,
                        SuccessfulQueries entry))
         (ranked pdqsort_large slowAndQuick)
     = [("10.0.0.2:53", 5%Q, 1); ("10.0.0.1:53", 0%Q, 1)].
Proof. by vm_compute. Qed.

(** *** The ranking *)

Lemma StronglySorted_weaken {A} (R R' : A -> A -> Prop) (l : list A) :
  (forall a b, R a b -> R' a b) ->
  StronglySorted R l -> StronglySorted R' l.
Proof.
  intros HR. induction 1 as [|x l Hl IH Hx]; [apply SSorted_nil|].
  constructor; [done|]. eapply Forall_impl; eauto.
Qed.

Lemma StronglySorted_lookup {A} (R : A -> A -> Prop) (l : list A)
    (i j : nat) (a b : A) :
  StronglySorted R l -> (i < j)%nat ->
  l !! i = Some a -> l !! j = Some b -> R a b.
Proof.
  intros Hl. revert i j.
  induction Hl as [|x l Hl IH Hx]; intros i j Hij Hi Hj; [done|].
  destruct j as [|j]; [lia|]. destruct i as [|i]; simplify_eq/=.
  - rewrite Forall_forall in Hx. apply Hx. by eapply list_elem_of_lookup_2.
  - apply (IH i j); [lia|done..].
Qed.

Lemma insertionSort_sortsSlices : sortsSlices insertionSort_func.
Proof.
  intros less0 data Hless. split; [apply insertionSort_Permutation|].
  eapply StronglySorted_weaken;
    [|apply (insertionSort_stable less0 (fun _ _ => True) Hless data
               (StronglySorted_any data))].
  intros a b. by apply before_not_less.
Qed.

Lemma sort_Slice_sortsSlices
    (pdqsort_large : (SummaryEntry -> SummaryEntry -> bool) ->
                     list SummaryEntry -> list SummaryEntry) :
  sortsSlices pdqsort_large -> sortsSlices (sort_Slice pdqsort_large).
Proof.
  intros Hlarge less0 data Hless. unfold sort_Slice.
  destruct (length data <=? maxInsertion)%nat;
    [by apply insertionSort_sortsSlices|by apply Hlarge].
Qed.

(** Reading of a pair of entries that [less] does not put in the other
    order. *)
Ltac less_facts :=
  unfold less, Qlt_bool;
  repeat match goal with
         | |- context [AverageMs ?e] => generalize (AverageMs e); intro
         | |- context [SuccessfulQueries ?e] =>
             generalize (SuccessfulQueries e); intro
         end;
  bool_cases; intros; try done; first [lra|lia].

Lemma not_less_no_success (a b : SummaryEntry) :
  less b a = false -> summaryInvariant a -> summaryInvariant b ->
  SuccessfulQueries a = 0 -> SuccessfulQueries b = 0.
Proof.
  intros Hless [_ Ha] [Hb _] Hnone.
  unfold less in Hless. rewrite (Ha Hnone) in Hless.
  revert Hless Hb Hnone. less_facts.
Qed.

Lemma not_less_mean (a b : SummaryEntry) :
  less b a = false ->
  ~ AverageMs a == 0 -> ~ AverageMs b == 0 ->
  (AverageMs a <= AverageMs b)%Q.
Proof. less_facts. Qed.

Lemma not_less_count (a b : SummaryEntry) :
  less b a = false ->
  AverageMs a == AverageMs b -> SuccessfulQueries b <= SuccessfulQueries a.
Proof. less_facts. Qed.

Lemma tie_not_less (a b : SummaryEntry) :
  AverageMs a == AverageMs b -> SuccessfulQueries a = SuccessfulQueries b ->
  less a b = false.
Proof. less_facts. Qed.

(** C2, counterexample: two nameservers with the same mean and the same
    count are ranked by their strings, "1.1.1.1:53" first, not in the
    order they were given and tested (for two entries [sort.Slice] is
    the insertion sort, whatever it does to long slices). *)
Lemma ranked_ties_not_in_input_order :
  map fst tiedServers = ["8.8.8.8:53"; "1.1.1.1:53"]
  /\ map Nameserver (rankingAsDescribed tiedServers)
     = ["8.8.8.8:53"; "1.1.1.1:53"]
  /\ map Nameserver (ranked insertionSort_func tiedServers)
     = ["1.1.1.1:53"; "8.8.8.8:53"]
  /\ ranked insertionSort_func tiedServers <> rankingAsDescribed tiedServers.
Proof. vm_compute. repeat split; discriminate. Qed.

(** C2, as the code has it: the ranking is a permutation of the
    summaries, one per nameserver, in which no nameserver without a
    success comes before one with a success, means other than 0 ascend,
    equal means come with the higher count first, and what is still tied
    comes in the ascending order of the nameserver strings as long as
    there are at most 12 nameservers. *)
Theorem ranked_order
    (pdqsort_large : (SummaryEntry -> SummaryEntry -> bool) ->
                     list SummaryEntry -> list SummaryEntry)
    (batches : list (string * list Result)) :
  sortsSlices pdqsort_large ->
  ranked pdqsort_large batches ≡ₚ summaryData (allResults batches)
  /\ forall (i j : nat) (a b : SummaryEntry),
       (i < j)%nat ->
       ranked pdqsort_large batches !! i = Some a ->
       ranked pdqsort_large batches !! j = Some b ->
       (SuccessfulQueries a = 0 -> SuccessfulQueries b = 0)
       /\ (~ AverageMs a == 0 -> ~ AverageMs b == 0 ->
           (AverageMs a <= AverageMs b)%Q)
       /\ (AverageMs a == AverageMs b ->
           SuccessfulQueries b <= SuccessfulQueries a)
       /\ ((length (ranked pdqsort_large batches) <= maxInsertion)%nat ->
           AverageMs a == AverageMs b ->
           SuccessfulQueries a = SuccessfulQueries b ->
           String.ltb (Nameserver a) (Nameserver b) = true).
Proof.
  intros Hlarge.
  destruct (sort_Slice_sortsSlices pdqsort_large Hlarge less
              (summaryData (allResults batches)) less_StrictWeak)
    as [Hperm Hsorted].
  fold (ranked pdqsort_large batches) in Hperm, Hsorted.
  split; [done|]. intros i j a b Hij Hi Hj.
  pose proof (StronglySorted_lookup _ _ _ _ _ _ Hsorted Hij Hi Hj) as Hba.
  simpl in Hba.
  assert (Hinv : Forall summaryInvariant (ranked pdqsort_large batches)).
  { rewrite Hperm. apply summaryData_invariant. }
  rewrite Forall_forall in Hinv.
  pose proof (Hinv a (list_elem_of_lookup_2 _ _ _ Hi)) as Ha.
  pose proof (Hinv b (list_elem_of_lookup_2 _ _ _ Hj)) as Hb.
  split; [by apply not_less_no_success|].
  split; [by apply not_less_mean|].
  split; [by apply not_less_count|].
  intros Hsmall Hmean Hcount.
  assert (Hstable : StronglySorted (before less earlierName)
                      (ranked pdqsort_large batches)).
  { unfold ranked, sort_Slice in *.
    apply Permutation_length in Hperm.
    destruct (Nat.leb_spec (length (summaryData (allResults batches)))
                maxInsertion) as [_|Hlong]; [|lia].
    apply insertionSort_stable;
      [apply less_StrictWeak|apply summaryData_ascending]. }
  destruct (StronglySorted_lookup _ _ _ _ _ _ Hstable Hij Hi Hj)
    as [Hab|[_ Hearlier]]; [|done].
  by rewrite tie_not_less in Hab.
Qed.

Lemma ranked_order_witness :
  sortsSlices insertionSort_func
  /\ ranked insertionSort_func designScenario
     ≡ₚ summaryData (allResults designScenario)
  /\ map (fun entry => (Nameserver entry, AverageMs entry,
                        SuccessfulQueries entry))
         (ranked insertionSort_func designScenario)
     = [("8.8.8.8:53", (33 # 3)%Q, 3); ("1.1.1.1:53", (60 # 3)%Q, 3);
        ("192.0.2.1:53", 0%Q, 0)]
  /\ map Nameserver (fastest (ranked insertionSort_func designScenario))
     = ["8.8.8.8:53"].
Proof.
  split; [exact insertionSort_sortsSlices|].
  split; [exact (proj1 (ranked_order insertionSort_func designScenario
                          insertionSort_sortsSlices))|].
  by vm_compute.
Defined.

(** *** Where the fastest nameservers are the described ones *)

Lemma filter_none {A} (p : A -> bool) (l : list A) :
  Forall (fun x => p x = false) l -> List.filter p l = [].
Proof.
  induction 1 as [|x l Hx Hl IH]; simpl; [done|]. by rewrite Hx.
Qed.

Lemma withMean_above (fastestAvg : Q) (a b : SummaryEntry) :
  less b a = false -> meanPositive b ->
  Qlt_bool fastestAvg (AverageMs a) && negb (Qeq_bool (AverageMs a) 0) = true ->
  withMean fastestAvg b = false.
Proof.
  intros Hless Hmean Hbreak. unfold withMean.
  destruct (Z.ltb_spec 0 (SuccessfulQueries b)) as [Hsuccess|_];
    [|by rewrite andb_false_r].
  specialize (Hmean Hsuccess). rewrite andb_true_r.
  revert Hless Hmean Hbreak. clear. less_cases.
Qed.

(** On a ranked list in which the means of the nameservers with a
    success are above 0, the loop prints the entries with the mean
    [fastestAvg] and a success, all of them. *)
Lemma fastestLoop_sorted (fastestAvg : Q) (entries : list SummaryEntry) :
  StronglySorted (fun a b => less b a = false) entries ->
  Forall meanPositive entries ->
  fastestLoop fastestAvg entries = List.filter (withMean fastestAvg) entries.
Proof.
  intros Hsorted Hmean.
  induction Hsorted as [|entry entries Hsorted IH Hentry]; simpl; [done|].
  apply Forall_cons in Hmean as [Hmean_entry Hmean].
  fold (withMean fastestAvg entry).
  destruct (withMean fastestAvg entry) eqn:Hprinted.
  - f_equal. by apply IH.
  - destruct (Qlt_bool fastestAvg (AverageMs entry)
              && negb (Qeq_bool (AverageMs entry) 0)) eqn:Hbreak;
      [|by apply IH].
    symmetry. apply filter_none.
    rewrite Forall_forall in Hentry. rewrite Forall_forall in Hmean.
    apply Forall_forall. intros b Hb.
    eapply withMean_above; eauto.
Qed.

Lemma first_is_least (first e : SummaryEntry) (rest : list SummaryEntry) :
  StronglySorted (fun a b => less b a = false) (first :: rest) ->
  Forall meanPositive (first :: rest) ->
  In e (first :: rest) ->
  0 < SuccessfulQueries first -> 0 < SuccessfulQueries e ->
  (AverageMs first <= AverageMs e)%Q.
Proof.
  intros Hsorted Hmean [<-|He] Hfirst Hsuccess; [lra|].
  apply StronglySorted_inv in Hsorted as [_ Hrest].
  rewrite Forall_forall in Hrest. rewrite Forall_forall in Hmean.
  pose proof (Hmean first ltac:(left) Hfirst).
  pose proof (Hmean e ltac:(right; by apply list_elem_of_In) Hsuccess).
  apply not_less_mean; [|lra..].
  apply Hrest. by apply list_elem_of_In.
Qed.

Lemma described_withMean (first e : SummaryEntry)
    (rest : list SummaryEntry) :
  StronglySorted (fun a b => less b a = false) (first :: rest) ->
  Forall summaryInvariant (first :: rest) ->
  Forall meanPositive (first :: rest) ->
  In e (first :: rest) ->
  withMean (AverageMs first) e
  = (0 <? SuccessfulQueries e)
    && forallb (fun other =>
                  implb (0 <? SuccessfulQueries other)
                        (Qle_bool (AverageMs e) (AverageMs other)))
               (first :: rest).
Proof.
  intros Hsorted Hinv Hmean He. unfold withMean.
  destruct (Z.ltb_spec 0 (SuccessfulQueries e)) as [Hsuccess|Hnone];
    [|by rewrite andb_false_r].
  rewrite andb_true_r, andb_true_l.
  destruct (Z.ltb_spec 0 (SuccessfulQueries first)) as [Hfirst|Hfirst].
  - pose proof (first_is_least first e rest Hsorted Hmean He Hfirst Hsuccess)
      as Hleast.
    apply eq_true_iff_eq. rewrite Qeq_bool_iff, forallb_forall. split.
    + intros Heq other Hother.
      destruct (Z.ltb_spec 0 (SuccessfulQueries other)) as [Hok|_]; [|done].
      simpl. apply Qle_bool_iff. rewrite Heq.
      by apply (first_is_least first other rest).
    + intros Hall. specialize (Hall first ltac:(by left)).
      destruct (Z.ltb_spec 0 (SuccessfulQueries first)); [|lia].
      simpl in Hall. apply Qle_bool_iff in Hall. lra.
  - exfalso.
    rewrite Forall_forall in Hinv.
    destruct (Hinv first ltac:(left)) as [Hcount _].
    destruct He as [<-|He]; [lia|].
    apply StronglySorted_inv in Hsorted as [_ Hrest].
    rewrite Forall_forall in Hrest.
    assert (He' : e ∈ rest) by (by apply list_elem_of_In).
    pose proof (not_less_no_success first e (Hrest e He')
                  (Hinv first ltac:(left)) (Hinv e ltac:(by right))
                  ltac:(lia)).
    lia.
Qed.

(** Where every nameserver with a success has a reported mean above 0,
    the fastest nameservers printed are the ones the design document
    describes. *)
Lemma fastest_as_described
    (pdqsort_large : (SummaryEntry -> SummaryEntry -> bool) ->
                     list SummaryEntry -> list SummaryEntry)
    (batches : list (string * list Result)) :
  sortsSlices pdqsort_large ->
  Forall meanPositive (summaryData (allResults batches)) ->
  fastest (ranked pdqsort_large batches)
  = fastestAsDescribed (ranked pdqsort_large batches).
Proof.
  intros Hlarge Hmean.
  destruct (sort_Slice_sortsSlices pdqsort_large Hlarge less
              (summaryData (allResults batches)) less_StrictWeak)
    as [Hperm Hsorted].
  fold (ranked pdqsort_large batches) in Hperm, Hsorted.
  rewrite <- Hperm in Hmean.
  assert (Hinv : Forall summaryInvariant (ranked pdqsort_large batches)).
  { rewrite Hperm. apply summaryData_invariant. }
  destruct (ranked pdqsort_large batches) as [|first rest]; [done|].
  unfold fastest, fastestAsDescribed.
  rewrite fastestLoop_sorted by done.
  apply filter_ext_in. intros e He. by apply described_withMean.
Qed.

End ReportFacts.

(** ** [strings.TrimSpace] *)

Module TrimFacts.
Import GoStrings TrimDefs.

Lemma trimLeftSpace_fixed (s : string) :
  startsWithSpace s = false -> trimLeftSpace s = s.
Proof.
  destruct s as [|b1 [|b2 [|b3 r3]]]; simpl; rewrite ?orb_false_r;
    try done.
  - by intros ->.
  - intros H. by apply orb_false_iff in H as [-> ->].
  - intros H. apply orb_false_iff in H as [-> H].
    by apply orb_false_iff in H as [-> ->].
Qed.

Lemma trimLeftSpaceRev_fixed (s : string) :
  startsWithSpaceRev s = false -> trimLeftSpaceRev s = s.
Proof.
  destruct s as [|b1 [|b2 [|b3 r3]]]; simpl; rewrite ?orb_false_r;
    try done.
  - by intros ->.
  - intros H. by apply orb_false_iff in H as [-> ->].
  - intros H. apply orb_false_iff in H as [-> H].
    by apply orb_false_iff in H as [-> ->].
Qed.

(** What is left of [s] starts with no white space, and is the end of
    [s]. *)
Lemma trimLeftSpace_spec (n : nat) (s : string) :
  String.length s <= n ->
  startsWithSpace (trimLeftSpace s) = false
  /\ exists dropped, s = (dropped ++ trimLeftSpace s)%string.
Proof.
  revert s. induction n as [|n IH]; intros s Hn.
  { destruct s; simpl in *; [|lia]. split; [done|]. by exists "". }
  destruct (startsWithSpace s) eqn:H.
  2: { rewrite (trimLeftSpace_fixed _ H). split; [done|by exists ""]. }
  destruct s as [|b1 r1]; [done|].
  simpl in Hn, H. simpl trimLeftSpace.
  destruct (asciiSpace b1) eqn:H1.
  { destruct (IH r1 ltac:(lia)) as [Hs [d Hd]]. split; [done|].
    exists (String b1 d). exact (f_equal (String b1) Hd). }
  destruct r1 as [|b2 r2]; [done|].
  destruct (isSpace2 b1 b2) eqn:H2.
  { destruct (IH r2 ltac:(simpl in *; lia)) as [Hs [d Hd]]. split; [done|].
    exists (String b1 (String b2 d)).
    exact (f_equal (fun r => String b1 (String b2 r)) Hd). }
  destruct r2 as [|b3 r3]; [done|].
  destruct (isSpace3 b1 b2 b3) eqn:H3; [|done].
  destruct (IH r3 ltac:(simpl in *; lia)) as [Hs [d Hd]]. split; [done|].
  exists (String b1 (String b2 (String b3 d))).
  exact (f_equal (fun r => String b1 (String b2 (String b3 r))) Hd).
Qed.

Lemma trimLeftSpaceRev_spec (n : nat) (s : string) :
  String.length s <= n ->
  startsWithSpaceRev (trimLeftSpaceRev s) = false
  /\ exists dropped, s = (dropped ++ trimLeftSpaceRev s)%string.
Proof.
  revert s. induction n as [|n IH]; intros s Hn.
  { destruct s; simpl in *; [|lia]. split; [done|]. by exists "". }
  destruct (startsWithSpaceRev s) eqn:H.
  2: { rewrite (trimLeftSpaceRev_fixed _ H). split; [done|by exists ""]. }
  destruct s as [|b1 r1]; [done|].
  simpl in Hn, H. simpl trimLeftSpaceRev.
  destruct (asciiSpace b1) eqn:H1.
  { destruct (IH r1 ltac:(lia)) as [Hs [d Hd]]. split; [done|].
    exists (String b1 d). exact (f_equal (String b1) Hd). }
  destruct r1 as [|b2 r2]; [done|].
  destruct (isSpace2 b2 b1) eqn:H2.
  { destruct (IH r2 ltac:(simpl in *; lia)) as [Hs [d Hd]]. split; [done|].
    exists (String b1 (String b2 d)).
    exact (f_equal (fun r => String b1 (String b2 r)) Hd). }
  destruct r2 as [|b3 r3]; [done|].
  destruct (isSpace3 b3 b2 b1) eqn:H3; [|done].
  destruct (IH r3 ltac:(simpl in *; lia)) as [Hs [d Hd]]. split; [done|].
  exists (String b1 (String b2 (String b3 d))).
  exact (f_equal (fun r => String b1 (String b2 (String b3 r))) Hd).
Qed.

(** A string that starts with no white space has no start that does. *)
Lemma startsWithSpace_prefix (p q : string) :
  startsWithSpace (p ++ q) = false -> startsWithSpace p = false.
Proof.
  destruct p as [|b1 [|b2 [|b3 r3]]]; simpl; try done.
  - intros H. apply orb_false_iff in H as [-> _]. done.
  - intros H. apply orb_false_iff in H as [-> H]. simpl.
    rewrite orb_false_r. by apply orb_false_iff in H as [-> _].
Qed.

Lemma list_ascii_of_string_app (a b : string) :
  list_ascii_of_string (a ++ b)
  = list_ascii_of_string a ++ list_ascii_of_string b.
Proof. induction a as [|c a IH]; simpl; [done|by rewrite IH]. Qed.

Lemma string_of_list_ascii_app' (a b : list ascii) :
  string_of_list_ascii (a ++ b)
  = (string_of_list_ascii a ++ string_of_list_ascii b)%string.
Proof. induction a as [|c a IH]; simpl; [done|by rewrite IH]. Qed.

Lemma reverse_app (a b : string) :
  GoStrings.reverse (a ++ b)
  = (GoStrings.reverse b ++ GoStrings.reverse a)%string.
Proof.
  unfold GoStrings.reverse.
  by rewrite list_ascii_of_string_app, rev_app_distr,
    string_of_list_ascii_app'.
Qed.

Lemma reverse_involutive (s : string) :
  GoStrings.reverse (GoStrings.reverse s) = s.
Proof.
  unfold GoStrings.reverse.
  by rewrite list_ascii_of_string_of_list_ascii, rev_involutive,
    string_of_list_ascii_of_string.
Qed.

(** [TrimSpace] leaves white space neither at the start nor at the end. *)
Lemma TrimSpace_trimmed (s : string) : trimmed (TrimSpace s) = true.
Proof.
  unfold trimmed, TrimSpace.
  destruct (trimLeftSpace_spec _ s (le_n _)) as [Hleft _].
  destruct (trimLeftSpaceRev_spec _ (reverse (trimLeftSpace s)) (le_n _))
    as [Hright [d Hd]].
  rewrite reverse_involutive, Hright, andb_true_r.
  apply negb_true_iff.
  apply (startsWithSpace_prefix _ (reverse d)).
  rewrite <- reverse_app, <- Hd, reverse_involutive. exact Hleft.
Qed.

(** A string with white space at neither end is what [TrimSpace] makes
    of it. *)
Lemma TrimSpace_fixed (s : string) : trimmed s = true -> TrimSpace s = s.
Proof.
  unfold trimmed, TrimSpace. intros H.
  apply andb_true_iff in H as [Hl Hr].
  apply negb_true_iff in Hl, Hr.
  by rewrite (trimLeftSpace_fixed _ Hl), (trimLeftSpaceRev_fixed _ Hr),
    reverse_involutive.
Qed.

Lemma TrimSpace_idempotent (s : string) :
  TrimSpace (TrimSpace s) = TrimSpace s.
Proof. apply TrimSpace_fixed, TrimSpace_trimmed. Qed.

End TrimFacts.

(** ** The domains of a file *)

Module DomainFacts.
Import GoStrings GoBufio Flags cli FlagDefs TrimDefs DomainDefs TrimFacts.

Lemma length_append (a b : string) :
  String.length (a ++ b) = String.length a + String.length b.
Proof. induction a as [|c a IH]; simpl; [done|by rewrite IH]. Qed.

Lemma append_nil_r (s : string) : (s ++ "")%string = s.
Proof. induction s as [|c s IH]; [done|exact (f_equal (String c) IH)]. Qed.

Lemma noByte_append (c : ascii) (a b : string) :
  noByte c (a ++ b) = noByte c a && noByte c b.
Proof.
  unfold noByte. by rewrite list_ascii_of_string_app, forallb_app.
Qed.

Lemma tooLong_append (a x b : string) :
  tooLong (a ++ x ++ b) = false -> tooLong x = false.
Proof.
  unfold tooLong, MaxScanTokenSize. rewrite !N.leb_gt, !length_append. lia.
Qed.

Lemma dropCR_spec (data : string) :
  dropCR data = data \/ data = (dropCR data ++ String "013" "")%string.
Proof.
  induction data as [|c rest IH]; [by left|].
  destruct rest as [|c' rest].
  - simpl. destruct (Ascii.eqb_spec c "013") as [->|]; [by right|by left].
  - change (dropCR (String c (String c' rest)))
      with (String c (dropCR (String c' rest))).
    destruct IH as [->|IH]; [by left|right].
    exact (f_equal (String c) IH).
Qed.

Lemma isSpace2_cr (b1 : ascii) : isSpace2 b1 "013" = false.
Proof. unfold isSpace2. by rewrite andb_false_r. Qed.

Lemma isSpace3_cr (b1 b2 : ascii) : isSpace3 b1 b2 "013" = false.
Proof.
  unfold isSpace3.
  change (byte_is "013" 128) with false.
  change (byte_is "013" 159) with false.
  simpl. by rewrite !andb_false_r.
Qed.

(** A carriage return at the end completes no white-space code point, so
    it is what trimming on the left leaves last. *)
Lemma trimLeftSpace_app_cr (n : nat) (t : string) :
  String.length t <= n ->
  trimLeftSpace (t ++ String "013" "")
  = if String.eqb (trimLeftSpace t) "" then ""
    else (trimLeftSpace t ++ String "013" "")%string.
Proof.
  revert t. induction n as [|n IH]; intros t Hn.
  { destruct t; simpl in *; [done|lia]. }
  destruct t as [|b1 r1]; [done|].
  simpl in Hn. simpl.
  destruct (asciiSpace b1) eqn:H1; [apply IH; lia|].
  destruct r1 as [|b2 r2]; [by simpl; rewrite isSpace2_cr|].
  simpl. destruct (isSpace2 b1 b2) eqn:H2; [apply IH; simpl in *; lia|].
  destruct r2 as [|b3 r3]; [by simpl; rewrite isSpace3_cr|].
  simpl. destruct (isSpace3 b1 b2 b3) eqn:H3; [apply IH; simpl in *; lia|].
  done.
Qed.

Lemma reverse_cons (c : ascii) (s : string) :
  reverse (String c s) = (reverse s ++ String c "")%string.
Proof. apply (reverse_app (String c "") s). Qed.

Lemma reverse_snoc (c : ascii) (s : string) :
  reverse (s ++ String c "") = String c (reverse s).
Proof. apply (reverse_app s (String c "")). Qed.

(** The carriage return the scanner drops would not survive the trimming
    anyway. *)
Lemma TrimSpace_dropCR (data : string) :
  TrimSpace (dropCR data) = TrimSpace data.
Proof.
  destruct (dropCR_spec data) as [->|H]; [done|].
  rewrite H at 2. unfold TrimSpace.
  rewrite (trimLeftSpace_app_cr _ _ (le_n _)).
  destruct (String.eqb_spec (trimLeftSpace (dropCR data)) "") as [->|_];
    [done|].
  by rewrite reverse_snoc.
Qed.

(** What is left of a string by [TrimSpace] is a part of it. *)
Lemma TrimSpace_part (s : string) :
  exists a b, s = (a ++ TrimSpace s ++ b)%string.
Proof.
  destruct (trimLeftSpace_spec _ s (le_n _)) as [_ [a Ha]].
  destruct (trimLeftSpaceRev_spec _ (reverse (trimLeftSpace s)) (le_n _))
    as [_ [d Hd]].
  exists a, (reverse d). unfold TrimSpace.
  rewrite <- reverse_app, <- Hd, reverse_involutive. exact Ha.
Qed.

Lemma dropCR_part (data : string) :
  exists b, data = ("" ++ dropCR data ++ b)%string.
Proof.
  destruct (dropCR_spec data) as [H|H].
  - exists "". by rewrite H, append_nil_r.
  - by exists (String "013" "").
Qed.

Lemma Split_cons (s : string) (sep : ascii) :
  exists piece rest, Split s sep = piece :: rest.
Proof.
  destruct s as [|c s]; simpl; [by eexists _, _|].
  destruct (Ascii.eqb c sep); [by eexists _, _|].
  destruct (Split s sep); by eexists _, _.
Qed.

Lemma Split_noByte (s : string) (sep : ascii) :
  Forall (fun piece => noByte sep piece = true) (Split s sep).
Proof.
  induction s as [|c s IH]; simpl; [by repeat constructor|].
  destruct (Ascii.eqb c sep) eqn:Hc; [by constructor|].
  destruct (Split s sep) as [|p ps].
  - constructor; [|done]. unfold noByte. simpl. by rewrite Hc.
  - inversion IH; subst. constructor; [|done].
    unfold noByte in *. simpl. by rewrite Hc.
Qed.

(** The loop over the tokens, as one expression. *)
Lemma loadLoop_fold (tokens domains : list string) :
  fold_left (fun domains text =>
               let domain := TrimSpace text in
               if negb (String.eqb domain "") then domains ++ [domain]
               else domains) tokens domains
  = domains ++ List.filter nonEmpty (map TrimSpace tokens).
Proof.
  revert domains. induction tokens as [|t tokens IH]; intros domains; simpl.
  - by rewrite app_nil_r.
  - rewrite IH. unfold nonEmpty.
    destruct (negb (String.eqb (TrimSpace t) "")); [|done].
    by rewrite <- app_assoc.
Qed.

(** The tokens of the scanner give the domains of the lines that come
    before the first one that is too long, and the scanner fails when
    there is such a line. *)
Lemma scanTokens_scannable (pieces : list string) :
  List.filter nonEmpty (map TrimSpace (scanTokens pieces).1)
  = List.filter nonEmpty (map TrimSpace (scannable pieces))
  /\ (scanTokens pieces).2 = existsb tooLong pieces.
Proof.
  induction pieces as [|piece rest IH]; [done|].
  destruct rest as [|piece' rest].
  - simpl. fold (tooLong piece).
    destruct (String.eqb_spec piece "") as [->|Hne]; [done|].
    destruct (tooLong piece); [done|].
    simpl. by rewrite TrimSpace_dropCR.
  - change (scanTokens (piece :: piece' :: rest))
      with (if tooLong piece then ([], true)
            else (dropCR piece :: (scanTokens (piece' :: rest)).1,
                  (scanTokens (piece' :: rest)).2)).
    change (scannable (piece :: piece' :: rest))
      with (if tooLong piece then []
            else piece :: scannable (piece' :: rest)).
    change (existsb tooLong (piece :: piece' :: rest))
      with (tooLong piece || existsb tooLong (piece' :: rest)).
    destruct IH as [IH1 IH2].
    destruct (tooLong piece); [done|].
    cbn [fst snd map List.filter orb].
    by rewrite TrimSpace_dropCR, IH1, IH2.
Qed.

Lemma scannable_short (pieces : list string) :
  existsb tooLong pieces = false -> scannable pieces = pieces.
Proof.
  induction pieces as [|piece rest IH]; simpl; [done|].
  intros H. apply orb_false_iff in H as [-> H]. by rewrite IH.
Qed.

Lemma scannable_In (pieces : list string) (piece : string) :
  In piece (scannable pieces) -> In piece pieces /\ tooLong piece = false.
Proof.
  induction pieces as [|p rest IH]; simpl; [done|].
  destruct (tooLong p) eqn:Hp; simpl; [done|].
  intros [<-|H]; [by split; [left|]|].
  destruct (IH H). by split; [right|].
Qed.

(** The outcome of [loadDomainsFromFile] on a file that could be opened. *)
Lemma loadDomainsFromFile_opened (open : string -> OpenResult)
    (filePath : string) (file : Reader) :
  open filePath = Opened file ->
  loadDomainsFromFile open filePath
  = (List.filter nonEmpty (map TrimSpace (scannable (lines file))),
     if existsb tooLong (lines file)
     then Some (scanError filePath "bufio.Scanner: token too long")
     else option_map (scanError filePath) (readErr file)).
Proof.
  intros Hopen. unfold loadDomainsFromFile, Scan. rewrite Hopen.
  cbn [fst snd]. rewrite loadLoop_fold. fold (lines file).
  destruct (scanTokens_scannable (lines file)) as [-> ->]. simpl.
  destruct (existsb tooLong (lines file)); [done|].
  by destruct (readErr file).
Qed.

Lemma Split_line (d rest : string) (sep : ascii) :
  noByte sep d = true ->
  Split (d ++ String sep rest) sep = d :: Split rest sep.
Proof.
  unfold noByte. induction d as [|c d IH]; simpl; intros H.
  - by rewrite Ascii.eqb_refl.
  - apply andb_true_iff in H as [Hc H]. apply negb_true_iff in Hc.
    by rewrite Hc, (IH H).
Qed.

Lemma Split_nosep (d : string) (sep : ascii) :
  noByte sep d = true -> Split d sep = [d].
Proof.
  unfold noByte. induction d as [|c d IH]; simpl; intros H; [done|].
  apply andb_true_iff in H as [Hc H]. apply negb_true_iff in Hc.
  by rewrite Hc, (IH H).
Qed.

Lemma listable_parts (d : string) :
  listable d = true ->
  nonEmpty d = true /\ trimmed d = true /\ noByte "010" d = true
  /\ tooLong d = false.
Proof.
  unfold listable. rewrite !andb_true_iff, negb_true_iff. tauto.
Qed.

(** The lines of the file that lists [domains]. *)
Lemma Split_listing (domains : list string) (finalNewline : bool) :
  forallb listable domains = true ->
  Split (listing domains finalNewline) "010"
  = match domains with
    | [] => [""]
    | _ :: _ => domains ++ (if finalNewline then [""] else [])
    end.
Proof.
  induction domains as [|d rest IH]; [done|].
  intros H. apply andb_true_iff in H as [Hd H].
  apply listable_parts in Hd as (_ & _ & Hd & _).
  specialize (IH H).
  destruct rest as [|d' rest].
  - simpl. destruct finalNewline.
    + by rewrite (Split_line _ _ _ Hd).
    + by rewrite (Split_nosep _ _ Hd).
  - change (listing (d :: d' :: rest) finalNewline)
      with (d ++ String "010" (listing (d' :: rest) finalNewline))%string.
    by rewrite (Split_line _ _ _ Hd), IH.
Qed.

Lemma listable_kept (domains : list string) :
  forallb listable domains = true ->
  List.filter nonEmpty (map TrimSpace domains) = domains
  /\ existsb tooLong domains = false.
Proof.
  induction domains as [|d rest IH]; [done|].
  intros H. apply andb_true_iff in H as [Hd H].
  apply listable_parts in Hd as (Hne & Htrim & _ & Hlen).
  destruct (IH H) as [IH1 IH2]. simpl.
  by rewrite (TrimSpace_fixed _ Htrim), Hne, IH1, Hlen, IH2.
Qed.

Lemma filter_map_app_blank (pieces : list string) :
  List.filter nonEmpty (map TrimSpace (pieces ++ [""]))
  = List.filter nonEmpty (map TrimSpace pieces).
Proof. by rewrite map_app, List.filter_app, app_nil_r. Qed.

Lemma existsb_app_blank (pieces : list string) :
  existsb tooLong (pieces ++ [""]) = existsb tooLong pieces.
Proof. by rewrite existsb_app, orb_false_r. Qed.

(** X2: the domains of a file none of whose lines is too long for the
    scanner (65536 bytes or more) are its lines, in their order, each
    trimmed of the white space around it, without the lines of which
    nothing is left; the carriage return of a line that ends in CR LF
    goes with the white space.  The only error then is the one of
    reading the file, wrapped with the path. *)
Theorem loadDomainsFromFile_trimmed_lines (open : string -> OpenResult)
    (filePath : string) (file : Reader) :
  open filePath = Opened file ->
  existsb tooLong (Split (content file) "010") = false ->
  loadDomainsFromFile open filePath
  = (List.filter nonEmpty (map TrimSpace (Split (content file) "010")),
     option_map (scanError filePath) (readErr file)).
Proof.
  intros Hopen Hshort.
  rewrite (loadDomainsFromFile_opened _ _ _ Hopen). unfold lines.
  by rewrite Hshort, (scannable_short _ Hshort).
Qed.

Lemma loadDomainsFromFile_trimmed_lines_witness :
  loadDomainsFromFile (fun _ => Opened exampleFile) "domains.txt"
  = (["google.com"; "cloudflare.com"; "example.com"], None).
Proof.
  exact (loadDomainsFromFile_trimmed_lines (fun _ => Opened exampleFile)
           "domains.txt" exampleFile eq_refl eq_refl).
Defined.

(** X3: whatever the file, every domain [loadDomainsFromFile] returns
    (also beside an error) is not empty, has no white space at its start
    or its end, holds no newline and is shorter than the buffer of the
    scanner. *)
Theorem loadDomainsFromFile_listable (open : string -> OpenResult)
    (filePath : string) :
  forallb listable (loadDomainsFromFile open filePath).1 = true.
Proof.
  destruct (open filePath) as [file|err] eqn:Hopen.
  2: { unfold loadDomainsFromFile. by rewrite Hopen. }
  rewrite (loadDomainsFromFile_opened _ _ _ Hopen). cbn [fst].
  apply forallb_forall. intros d Hd.
  apply filter_In in Hd as [Hd Hne].
  apply in_map_iff in Hd as (piece & <- & Hpiece).
  apply scannable_In in Hpiece as [Hpiece Hlen].
  pose proof (Split_noByte (content file) "010") as Hnl.
  rewrite List.Forall_forall in Hnl. specialize (Hnl _ Hpiece).
  destruct (TrimSpace_part piece) as (a & b & Hab).
  unfold listable. rewrite Hne, TrimSpace_trimmed. simpl.
  rewrite Hab in Hnl, Hlen.
  rewrite !noByte_append, !andb_true_iff in Hnl.
  destruct Hnl as (_ & -> & _).
  by rewrite (tooLong_append _ _ _ Hlen).
Qed.

(** X4: a list of domains, each fit to stand on a line of its own,
    written to a file one per line (with or without a newline after the
    last one) is read back as it was, without an error. *)
Theorem loadDomainsFromFile_round_trip (open : string -> OpenResult)
    (filePath : string) (domains : list string) (finalNewline : bool) :
  forallb listable domains = true ->
  open filePath
  = Opened {| content := listing domains finalNewline; readErr := None |} ->
  loadDomainsFromFile open filePath = (domains, None).
Proof.
  intros Hdomains Hopen.
  rewrite (loadDomainsFromFile_opened _ _ _ Hopen). unfold lines.
  cbn [content readErr]. rewrite (Split_listing _ _ Hdomains).
  destruct (listable_kept _ Hdomains) as [Hkept Hshort].
  destruct domains as [|d rest]; [done|].
  destruct finalNewline.
  - rewrite existsb_app_blank, Hshort.
    rewrite (scannable_short _ ltac:(by rewrite existsb_app_blank)).
    by rewrite filter_map_app_blank, Hkept.
  - rewrite app_nil_r, Hshort, (scannable_short _ Hshort). by rewrite Hkept.
Qed.

Lemma loadDomainsFromFile_round_trip_witness :
  loadDomainsFromFile
    (fun _ => Opened {| content := listing ["google.com"; "cloudflare.com";
                                            "example.com"] false;
                        readErr := None |})
    "domains.txt"
  = (["google.com"; "cloudflare.com"; "example.com"], None).
Proof.
  exact (loadDomainsFromFile_round_trip _ "domains.txt"
           ["google.com"; "cloudflare.com"; "example.com"] false
           eq_refl eq_refl).
Defined.

Section Sources.
Variable record : Type.
Variable Chrome : Z -> list record * option string.
Variable ExternalHostnames : list record -> list string.
Variable Uniq : list string -> list string.

Local Abbreviation domainsToTest :=
  (cli.domainsToTest record Chrome ExternalHostnames Uniq).

(** X5: whatever the flag [domain_source], the history and the files,
    [runCliBenchmark] has at least one domain to test after the switch:
    the check [len(domainsToTest) == 0] that follows it never fires. *)
Theorem domainsToTest_never_empty (open : string -> OpenResult)
    (domain_source : string) :
  domainsToTest open domain_source <> [].
Proof.
  unfold cli.domainsToTest.
  repeat match goal with
         | |- context [match ?x with _ => _ end] => destruct x eqn:?
         end; try done.
  - intros H. by rewrite H in *.
  - intros H. by rewrite H in *.
Qed.

(** X6: a file with a line that is too long for the scanner is an error
    for [loadDomainsFromFile], which returns the domains of the lines
    before that line with it; [runCliBenchmark] then tests the default
    domains and none of the file. *)
Theorem long_line_gives_defaults (open : string -> OpenResult)
    (domain_source : string) (file : Reader) :
  open domain_source = Opened file ->
  existsb tooLong (Split (content file) "010") = true ->
  loadDomainsFromFile open domain_source
  = (List.filter nonEmpty
       (map TrimSpace (scannable (Split (content file) "010"))),
     Some (scanError domain_source "bufio.Scanner: token too long"))
  /\ (domain_source <> "history" ->
      domainsToTest open domain_source = defaultDomains).
Proof.
  intros Hopen Hlong.
  pose proof (loadDomainsFromFile_opened _ _ _ Hopen) as Hload.
  unfold lines in Hload. rewrite Hlong in Hload.
  split; [done|]. intros Hsource.
  unfold cli.domainsToTest. rewrite Hload.
  apply String.eqb_neq in Hsource. rewrite Hsource.
  by destruct (String.eqb domain_source "default_list").
Qed.

End Sources.

Lemma long_line_gives_defaults_witness :
  (loadDomainsFromFile (fun _ => Opened longFile) "domains.txt").1
  = ["example.com"]
  /\ cli.domainsToTest unit (fun _ => ([], None)) (fun _ => []) (fun l => l)
       (fun _ => Opened longFile) "domains.txt" = defaultDomains.
Proof.
  pose proof (long_line_gives_defaults unit (fun _ => ([], None))
                (fun _ => []) (fun l => l) (fun _ => Opened longFile)
                "domains.txt" longFile eq_refl
                ltac:(vm_compute; reflexivity))
    as [Hload Hdefaults].
  split.
  - rewrite Hload. vm_compute. reflexivity.
  - apply Hdefaults. discriminate.
Defined.

End DomainFacts.

(** ** The entries of the nameserver list *)

Module EntryFacts.
Import GoStrings Flags FlagDefs TrimDefs DomainDefs EntryDefs.
Import TrimFacts DomainFacts.

Lemma prefix_colon (c : ascii) (s : string) :
  String.prefix ":" (String c s) = Ascii.eqb c ":".
Proof.
  cbn [String.prefix]. destruct (ascii_dec ":" c) as [<-|Hc].
  - by destruct s.
  - symmetry. apply Ascii.eqb_neq. congruence.
Qed.

Lemma index_cons (s1 s2 : string) (b : ascii) :
  index 0 s1 (String b s2)
  = if String.prefix s1 (String b s2) then Some 0
    else match index 0 s1 s2 with
         | Some n => Some (S n)
         | None => None
         end.
Proof. done. Qed.

Lemma Contains_colon (host rest : string) :
  Contains (host ++ String ":" rest) ":" = true.
Proof.
  unfold Contains.
  induction host as [|c host IH].
  - change ("" ++ String ":" rest)%string with (String ":" rest).
    by rewrite index_cons, prefix_colon.
  - change (String c host ++ String ":" rest)%string
      with (String c (host ++ String ":" rest)).
    rewrite index_cons, prefix_colon.
    destruct (Ascii.eqb c ":"); [done|].
    by destruct (index 0 ":" (host ++ String ":" rest)).
Qed.

Lemma isSpace2_colon (b1 : ascii) : isSpace2 b1 ":" = false.
Proof. unfold isSpace2. by rewrite andb_false_r. Qed.

Lemma isSpace3_colon (b1 b2 : ascii) : isSpace3 b1 b2 ":" = false.
Proof.
  unfold isSpace3.
  change (byte_is ":" 128) with false.
  change (byte_is ":" 159) with false.
  simpl. by rewrite !andb_false_r.
Qed.

Lemma isSpace3_colon_second (b1 b3 : ascii) : isSpace3 b1 ":" b3 = false.
Proof.
  unfold isSpace3.
  change (byte_is ":" 154) with false.
  change (byte_is ":" 128) with false.
  change (byte_is ":" 129) with false.
  by rewrite !andb_false_r.
Qed.

Lemma startsWithSpace_colon (host rest : string) :
  host <> "" ->
  startsWithSpace (host ++ String ":" rest) = startsWithSpace host.
Proof.
  destruct host as [|b1 [|b2 [|b3 r3]]]; [done|..]; intros _; simpl.
  - rewrite isSpace2_colon. simpl.
    destruct rest; [done|]. by rewrite isSpace3_colon_second.
  - by rewrite isSpace3_colon.
  - done.
Qed.

Lemma nonEmpty_append (a b : string) :
  nonEmpty a = true -> nonEmpty (a ++ b) = true.
Proof. by destruct a. Qed.

(** What [parseStep] appends is an entry in the form host:port. *)
Lemma addDefaultPort_hostPort (piece : string) :
  noByte "," piece = true ->
  nonEmpty (TrimSpace piece) = true ->
  hostPort (addDefaultPort (TrimSpace piece)) = true.
Proof.
  intros Hcomma Hne.
  destruct (TrimSpace_part piece) as (a & b & Hab).
  rewrite Hab in Hcomma. rewrite !noByte_append, !andb_true_iff in Hcomma.
  destruct Hcomma as (_ & Hcomma & _).
  pose proof (TrimSpace_trimmed piece) as Htrim.
  unfold trimmed in Htrim. apply andb_true_iff in Htrim as [Hleft _].
  unfold hostPort, addDefaultPort.
  destruct (Contains (TrimSpace piece) ":") eqn:Hcolon.
  - by rewrite Hne, Hcolon, Hcomma, Hleft.
  - rewrite (nonEmpty_append _ _ Hne), Contains_colon, noByte_append, Hcomma.
    rewrite startsWithSpace_colon; [by rewrite Hleft|].
    intros H. by rewrite H in Hne.
Qed.

(** X1: the list [parseNameservers] returns is the default one, or it is
    not empty and each of its entries is in the form host:port: not
    empty, with a colon, without a comma and with no white space at its
    start.  With the default nameservers of the program the list is
    never empty, so that the check [len(currentNameservers) == 0] of
    [runCliBenchmark] never fires. *)
Theorem parseNameservers_host_port (nsFlag : string)
    (defaultNS : list string) :
  (parseNameservers nsFlag defaultNS = defaultNS
   \/ (parseNameservers nsFlag defaultNS <> []
       /\ forallb hostPort (parseNameservers nsFlag defaultNS) = true))
  /\ parseNameservers nsFlag defaultNameservers <> []
  /\ forallb hostPort (parseNameservers nsFlag defaultNameservers) = true.
Proof.
  assert (Hparsed : forall defaults,
    parseNameservers nsFlag defaults = defaults
    \/ (parseNameservers nsFlag defaults <> []
        /\ forallb hostPort (parseNameservers nsFlag defaults) = true)).
  { intros defaults. unfold parseNameservers.
    destruct (String.eqb nsFlag ""); [by left|].
    rewrite FlagFacts.parseStep_fold. simpl.
    destruct (map addDefaultPort _) as [|entry entries] eqn:Hentries;
      [by left|right].
    split; [done|]. simpl length. cbn [Nat.eqb].
    rewrite <- Hentries. apply forallb_forall. intros entry' Hentry.
    apply in_map_iff in Hentry as (kept & <- & Hkept).
    apply filter_In in Hkept as [Hkept Hne].
    apply in_map_iff in Hkept as (piece & <- & Hpiece).
    apply addDefaultPort_hostPort; [|done].
    pose proof (Split_noByte nsFlag ",") as Hcomma.
    rewrite List.Forall_forall in Hcomma. by apply Hcomma. }
  split; [apply Hparsed|].
  destruct (Hparsed defaultNameservers) as [->|[Hne Hall]]; by split.
Qed.

End EntryFacts.

(** ** The window of the UI mode *)

Module WindowFacts.
Import cli WindowDefs.

(** X7: [openWindow] starts node-webkit only after it has found both the
    binary and the package: then it runs that one command, with
    [APP_URL] set to the URL, and returns nil exactly when the run
    succeeds; when one of the two is not found it returns an error and
    has neither run a command nor touched the environment. *)
Theorem openWindow_runs_after_checks (nw_path nw_package url : string)
    (m : Machine) :
  let err := (openWindow nw_path nw_package url m).1 in
  let m' := (openWindow nw_path nw_package url m).2 in
  if found (stat m nw_path) && found (stat m nw_package) then
    commands m' = commands m ++ [(nw_path, nw_package)]
    /\ lookupEnv "APP_URL" (environ m') = Some url
    /\ (err = None <-> runOutcome m nw_path nw_package = None)
  else m' = m /\ err <> None.
Proof.
  unfold openWindow.
  destruct (stat m nw_path); simpl; [|done..].
  destruct (stat m nw_package); simpl; [|done..].
  destruct (runOutcome m nw_path nw_package); simpl; by repeat split.
Qed.

End WindowFacts.

(** ** The queue at work *)

Module QueueFacts.
Import dnsqueue PoolDefs QueueDefs PoolFacts.

Lemma fold_left_snoc_map {A B} (f : A -> B) (l : list A) (acc : list B) :
  fold_left (fun answers x => answers ++ [f x]) l acc = acc ++ map f l.
Proof.
  revert acc. induction l as [|x l IH]; intros acc; simpl.
  - by rewrite app_nil_r.
  - by rewrite IH, <- app_assoc.
Qed.

Lemma held_length (ws : list Worker) : length (held ws) <= length ws.
Proof.
  induction ws as [|w ws IH]; simpl; [done|].
  rewrite length_app. destruct w; simpl; lia.
Qed.

(** A worker waits for a request, or one has returned, or they all hold
    a result. *)
Lemma workers_cases (ws : list Worker) :
  (exists i, ws !! i = Some Ranging)
  \/ Returned ∈ ws
  \/ length (held ws) = length ws.
Proof.
  induction ws as [|w ws IH]; [by right; right|].
  destruct w as [|result|].
  - left. by exists 0.
  - destruct IH as [[i Hi]|[Hin|Hlen]].
    + left. by exists (S i).
    + right. left. by right.
    + right. right. simpl. by rewrite Hlen.
  - right. left. by left.
Qed.

Section Queue.

Variable StringToType : string -> option Z.
Variable Quote : string -> string.
Variable network : nat -> Context -> Msg -> string -> ExchangeReply.

Local Abbreviation SendQuery := (dnsqueue.SendQuery StringToType Quote network).
Local Abbreviation step := (dnsqueue.step StringToType Quote network).
Local Abbreviation run := (dnsqueue.run StringToType Quote network).

(** *** One query for each request *)

Lemma SendQuery_exchanges (ctx : Context) (request : Request) (w : Wire) :
  (SendQuery ctx request w).2 = w ++ exchangesOf StringToType (ctx, request).
Proof.
  unfold dnsqueue.SendQuery, ExchangeContext, exchangesOf, queryMsg. simpl.
  destruct (StringToType (RecordType request)); [|by rewrite app_nil_r].
  destruct (network _ _ _ _); by destruct (VerifySignature request).
Qed.

(** X8: for a record type that [dns.StringToType] knows, [SendQuery]
    makes one exchange: with the context it was given, to the
    destination of the request, asking for the record name and the type,
    with the DO bit and a UDP size of 4096 exactly when the signature is
    to be verified.  The result has the round-trip time of that exchange
    as its duration, answered or not; answered, it has one answer for
    each record of the reply, in their order, and no error. *)
Theorem SendQuery_known_type (ctx : Context) (request : Request)
    (w : Wire) (record_type : Z) :
  StringToType (RecordType request) = Some record_type ->
  (SendQuery ctx request w).2
  = w ++ [{| ex_ctx := ctx; ex_msg := queryMsg request record_type;
             ex_address := Destination request |}]
  /\ match network (length w) ctx (queryMsg request record_type)
                   (Destination request) with
     | ExchangeOk in_Answer rtt =>
         (SendQuery ctx request w).1
         = ({| Req := request; Duration := rtt;
               Answers := map toAnswer in_Answer; Error := "" |}, None)
     | ExchangeFailed rtt _ =>
         exists err,
           (SendQuery ctx request w).1
           = ({| Req := request; Duration := rtt; Answers := [];
                 Error := err |}, Some err)
           /\ err <> ""
     end.
Proof.
  intros Hknown.
  split.
  { rewrite SendQuery_exchanges. unfold exchangesOf. simpl.
    by rewrite Hknown. }
  unfold dnsqueue.SendQuery, ExchangeContext. rewrite Hknown.
  assert (Hmsg : SetQuestion
                   (if VerifySignature request then SetEdns0 new_Msg 4096 true
                    else new_Msg) (RecordName request) record_type
                 = queryMsg request record_type).
  { unfold queryMsg. by destruct (VerifySignature request). }
  rewrite Hmsg.
  destruct (network _ _ _ _) as [in_Answer rtt|rtt exchangeErr]; simpl.
  - by rewrite fold_left_snoc_map.
  - eexists. split; [reflexivity|]. discriminate.
Qed.




(** When the caller has all the results nothing is left in the queue. *)
Lemma Finished_empty (size0 workers0 : nat) (jobs : list Request)
    (s : State) :
  Inv size0 workers0 jobs s -> phase s = Finished ->
  Results s = [] /\ held (workers s) = [] /\ Requests s = []
  /\ todo s = [] /\ closed s = true.
Proof.
  intros [Hjobs Hans Hexp Hsize Hworkers Hopen Hclosed Hfin Hret] Hphase.
  unfold whereabouts in Hjobs. apply Permutation_length in Hjobs.
  rewrite !length_app, !length_map in Hjobs.
  specialize (Hfin Hphase).
  destruct (Hclosed ltac:(by rewrite Hphase)) as [Hcl Htodo].
  repeat split; try done; apply length_zero_iff_nil; lia.
Qed.


(** *** Enough room for the batch *)

(** Before the channel is closed: the caller or a worker can take a
    step, unless both channels are full and every worker holds a
    result. *)
Lemma Dispatching_progress (size0 workers0 : nat) (jobs : list Request)
    (s : State) :
  0 < size0 -> 0 < workers0 -> length jobs <= 2 * size0 + workers0 ->
  Inv size0 workers0 jobs s -> phase s = Dispatching ->
  exists a s', step a s = Some s'.
Proof.
  intros Hsize0 Hworkers0 Hroom
    [Hjobs Hans Hexp Hsize Hworkers Hopen Hclosed Hfin Hret] Hphase.
  unfold whereabouts in Hjobs. apply Permutation_length in Hjobs.
  rewrite !length_app, !length_map in Hjobs.
  destruct (todo s) as [|req rest] eqn:Htodo.
  { exists SendCompletionSignal. eexists. unfold dnsqueue.step.
    by rewrite Hphase, Htodo. }
  destruct (Nat.ltb (length (Requests s)) (size s)) eqn:Hfull.
  { exists Submit. eexists. unfold dnsqueue.step.
    by rewrite Hphase, Htodo, Hfull. }
  apply Nat.ltb_ge in Hfull.
  destruct (Requests s) as [|request requests] eqn:HRequests;
    [simpl in Hfull; lia|].
  destruct (workers_cases (workers s)) as [[i Hi]|[Hin|Hlen]].
  - destruct (SendQuery (ctxToUse request) request (wire s))
      as [[r e] w'] eqn:Hq.
    exists (Serve i). eexists. unfold dnsqueue.step.
    rewrite Hi, HRequests. simpl. by rewrite Hq.
  - destruct (Hret Hin) as [Hcl _]. by rewrite (Hopen Hphase) in Hcl.
  - destruct (Nat.ltb (length (Results s)) (size s)) eqn:HResults.
    + destruct (held_cons_lookup (workers s)) as (i & r & Hi).
      { intros Hnil. rewrite Hnil in Hlen. simpl in Hlen. lia. }
      exists (Publish i). eexists. unfold dnsqueue.step.
      by rewrite Hi, HResults.
    + apply Nat.ltb_ge in HResults. simpl in Hjobs, Hfull. lia.
Qed.

Lemma progress (size0 workers0 : nat) (jobs : list Request) (s : State) :
  0 < size0 -> 0 < workers0 -> length jobs <= 2 * size0 + workers0 ->
  Inv size0 workers0 jobs s -> phase s <> Finished ->
  exists a s', step a s = Some s'.
Proof.
  intros Hsize0 Hworkers0 Hroom HInv Hphase.
  destruct (phase s) eqn:Hp; [| |done].
  - by apply (Dispatching_progress size0 workers0 jobs).
  - by apply (Collecting_progress StringToType Quote network size0 workers0
                jobs).
Qed.

Lemma run_app (schedule schedule' : list Action) (s s' s'' : State) :
  run schedule s = Some s' -> run schedule' s' = Some s'' ->
  run (schedule ++ schedule') s = Some s''.
Proof.
  revert s. induction schedule as [|a schedule IH]; intros s Hrun Hrun';
    simpl in *.
  - by injection Hrun as ->.
  - destruct (step a s) as [s1|]; [|done]. eauto.
Qed.

Lemma completion (size0 workers0 : nat) (jobs : list Request) (n : nat)
    (s : State) :
  0 < size0 -> 0 < workers0 -> length jobs <= 2 * size0 + workers0 ->
  Inv size0 workers0 jobs s -> stepsLeft s <= n ->
  exists schedule' s', run schedule' s = Some s' /\ phase s' = Finished.
Proof.
  intros Hsize0 Hworkers0 Hroom. revert s.
  induction n as [|n IH]; intros s HInv Hn.
  - destruct (phase s) eqn:Hphase;
      [unfold stepsLeft in Hn; rewrite Hphase in Hn; simpl in Hn; lia..|].
    by exists [], s.
  - destruct (phase s) eqn:Hphase; [| |by exists [], s].
    all: destruct (progress size0 workers0 jobs s) as (a & s1 & Hstep);
      [done|done|done|done|by rewrite Hphase|].
    all: pose proof (step_stepsLeft StringToType Quote network _ _ _ Hstep);
      destruct (IH s1) as (schedule' & s' & Hrun & Hfin);
      [by eapply (step_Inv StringToType Quote network)|lia|].
    all: exists (a :: schedule'), s'; simpl; by rewrite Hstep.
Qed.

(** X10: with a batch of at most [2 * size + workers] requests (what
    the two channels and the workers hold together), the queue never
    gets stuck, at no stage and on no schedule: as long as the caller
    has not read all the results some goroutine can take a step, and the
    steps can be continued until the caller has one result for each
    request. *)
Theorem queue_completes_batch_that_fits (size0 workers0 : nat)
    (jobs : list Request) (schedule : list Action) (s : State) :
  0 < size0 -> 0 < workers0 -> length jobs <= 2 * size0 + workers0 ->
  run schedule (StartQueue size0 workers0 jobs) = Some s ->
  (phase s <> Finished -> exists a s', step a s = Some s')
  /\ exists schedule' s',
       run (schedule ++ schedule') (StartQueue size0 workers0 jobs) = Some s'
       /\ phase s' = Finished
       /\ map Req (currentNsResults s') ≡ₚ jobs.
Proof.
  intros Hsize0 Hworkers0 Hroom Hrun.
  pose proof (run_Inv StringToType Quote network _ _ _ _ _ _
                (StartQueue_Inv size0 workers0 jobs) Hrun) as HInv.
  split; [by apply (progress size0 workers0 jobs)|].
  destruct (completion size0 workers0 jobs _ s Hsize0 Hworkers0 Hroom HInv
              (le_n _)) as (schedule' & s' & Hrun' & Hfin).
  exists schedule', s'. split; [by eapply run_app|]. split; [done|].
  pose proof (run_Inv StringToType Quote network _ _ _ _ _ _ HInv Hrun')
    as HInv'.
  by apply (Inv_received _ _ _ _ HInv').
Qed.

(** X11: when the whole batch fits one channel (at most [size]
    requests), no send ever blocks: the caller can always send its next
    request, and a worker that holds a result can always send it. *)
Theorem sends_never_block_when_batch_fits_channel (size0 workers0 : nat)
    (jobs : list Request) (schedule : list Action) (s : State) :
  length jobs <= size0 ->
  run schedule (StartQueue size0 workers0 jobs) = Some s ->
  (todo s <> [] -> exists s', step Submit s = Some s')
  /\ (forall i result,
        workers s !! i = Some (Sending result) ->
        exists s', step (Publish i) s = Some s').
Proof.
  intros Hroom Hrun.
  pose proof (run_Inv StringToType Quote network _ _ _ _ _ _
                (StartQueue_Inv size0 workers0 jobs) Hrun)
    as [Hjobs Hans Hexp Hsize Hworkers Hopen Hclosed Hfin Hret].
  unfold whereabouts in Hjobs. apply Permutation_length in Hjobs.
  rewrite !length_app, !length_map in Hjobs.
  split.
  - intros Htodo.
    destruct (phase s) eqn:Hphase;
      [|by destruct Hclosed as [_ ?]..].
    destruct (todo s) as [|req rest] eqn:Hreq; [done|].
    eexists. unfold dnsqueue.step. rewrite Hphase, Hreq.
    assert (Nat.ltb (length (Requests s)) (size s) = true) as ->; [|done].
    apply Nat.ltb_lt. simpl in Hjobs. lia.
  - intros i result Hi.
    eexists. unfold dnsqueue.step. rewrite Hi.
    assert (Nat.ltb (length (Results s)) (size s) = true) as ->; [|done].
    apply Nat.ltb_lt.
    assert (held (workers s) <> []) as Hheld.
    { intros Hnil. by eapply held_nil_lookup. }
    destruct (held (workers s)); [done|]. simpl in Hjobs. lia.
Qed.

(** *** A batch too large for the queue *)

Lemma StartQueue_Bounded (size0 workers0 : nat) (jobs : list Request) :
  Bounded (StartQueue size0 workers0 jobs).
Proof. split; simpl; [lia|lia|done]. Qed.

Lemma step_Bounded (a : Action) (s s' : State) :
  Bounded s -> step a s = Some s' -> Bounded s'.
Proof.
  intros [HRequests HResults Hnone] Hstep.
  destruct a; step_cases Hstep; split; simpl in *;
    rewrite ?length_app; simpl;
    repeat match goal with
           | H : Nat.ltb _ _ = true |- _ => apply Nat.ltb_lt in H
           end;
    try done; try lia.
Qed.

(** The caller does not get to close the channel when the batch is
    larger than what the queue holds. *)
Lemma step_oversized (size0 workers0 : nat) (jobs : list Request)
    (a : Action) (s s' : State) :
  2 * size0 + workers0 < length jobs ->
  Inv size0 workers0 jobs s -> Bounded s -> phase s = Dispatching ->
  step a s = Some s' -> phase s' = Dispatching.
Proof.
  intros Hlarge [Hjobs Hans Hexp Hsize Hworkers Hopen Hclosed Hfin Hret]
    [HRequests HResults Hnone] Hphase Hstep.
  unfold whereabouts in Hjobs. apply Permutation_length in Hjobs.
  rewrite !length_app, !length_map in Hjobs.
  pose proof (held_length (workers s)) as Hheld.
  rewrite (Hnone Hphase) in Hjobs.
  destruct a; step_cases Hstep; try done; try congruence.
  simpl in *. lia.
Qed.

(** X12: with a batch of more than [2 * size + workers] requests the
    caller never gets past the sending of its requests, whatever the
    schedule: the channel of requests is never closed, no result is ever
    read, and the steps come to an end (there are at most
    [4 * length jobs + workers + 2] of them), so that the program hangs
    with a request still to send. *)
Theorem oversized_batch_is_never_collected (size0 workers0 : nat)
    (jobs : list Request) (schedule : list Action) (s : State) :
  2 * size0 + workers0 < length jobs ->
  run schedule (StartQueue size0 workers0 jobs) = Some s ->
  phase s = Dispatching /\ closed s = false /\ todo s <> []
  /\ currentNsResults s = []
  /\ length schedule <= 4 * length jobs + workers0 + 2.
Proof.
  intros Hlarge Hrun.
  assert (Hsteps : length schedule <= 4 * length jobs + workers0 + 2).
  { pose proof (run_stepsLeft StringToType Quote network _ _ _ Hrun) as Hleft.
    unfold stepsLeft at 2 in Hleft. simpl in Hleft.
    assert (sum_list_with workerWeight (replicate workers0 Ranging)
            = workers0) as Hw.
    { clear. induction workers0; simpl; lia. }
    rewrite Hw in Hleft. lia. }
  assert (Hs : Inv size0 workers0 jobs s /\ Bounded s
               /\ phase s = Dispatching).
  { clear Hsteps.
    assert (Hinit : Inv size0 workers0 jobs (StartQueue size0 workers0 jobs)
                    /\ Bounded (StartQueue size0 workers0 jobs)
                    /\ phase (StartQueue size0 workers0 jobs) = Dispatching).
    { split; [apply StartQueue_Inv|]. split; [apply StartQueue_Bounded|done]. }
    revert Hinit Hrun. generalize (StartQueue size0 workers0 jobs).
    induction schedule as [|a schedule IH]; intros s0 Hs0 Hrun;
      simpl in Hrun.
    - by injection Hrun as <-.
    - destruct (step a s0) as [s1|] eqn:Hstep; [|done].
      destruct Hs0 as (HInv & HB & Hphase).
      apply (IH s1); [|done].
      split; [by eapply (step_Inv StringToType Quote network)|].
      split; [by eapply step_Bounded|].
      by eapply step_oversized. }
  destruct Hs as ([Hjobs Hans Hexp Hsize Hworkers Hopen Hclosed Hfin Hret]
                  & [HRequests HResults Hnone] & Hphase).
  repeat split; auto.
  intros Htodo.
  unfold whereabouts in Hjobs. apply Permutation_length in Hjobs.
  rewrite !length_app, !length_map, Htodo, (Hnone Hphase) in Hjobs.
  pose proof (held_length (workers s)). simpl in Hjobs. lia.
Qed.

(** *** The workers after the batch *)

(** X13: once the caller has read all the results nothing is left in
    the queue: both channels are empty and no worker holds a result or
    waits on a send; every worker has left its loop or can leave it at
    its next step, and when no step is left they have all returned. *)
Theorem workers_return_after_batch (size0 workers0 : nat)
    (jobs : list Request) (schedule : list Action) (s : State) :
  run schedule (StartQueue size0 workers0 jobs) = Some s ->
  phase s = Finished ->
  Requests s = [] /\ Results s = [] /\ held (workers s) = []
  /\ (forall i, workers s !! i = Some Ranging ->
                exists s', step (Return i) s = Some s')
  /\ ((forall a, step a s = None) ->
      workers s = replicate workers0 Returned).
Proof.
  intros Hrun Hphase.
  pose proof (run_Inv StringToType Quote network _ _ _ _ _ _
                (StartQueue_Inv size0 workers0 jobs) Hrun) as HInv.
  destruct (Finished_empty _ _ _ _ HInv Hphase)
    as (HResults & Hheld & HRequests & Htodo & Hcl).
  assert (Hreturn : forall i, workers s !! i = Some Ranging ->
                              exists s', step (Return i) s = Some s').
  { intros i Hi. eexists. unfold dnsqueue.step.
    by rewrite Hi, HRequests, Hcl. }
  repeat split; try done.
  intros Hstuck.
  rewrite <- (inv_workers _ _ _ _ HInv).
  apply list_eq_same_length with (length (workers s));
    [by rewrite length_replicate|done|].
  intros i w w' Hi Hw Hw'.
  apply lookup_replicate in Hw' as [-> _].
  destruct w as [|result|]; [| |done].
  - destruct (Hreturn i Hw) as [s' Hs']. by rewrite Hstuck in Hs'.
  - exfalso. by eapply held_nil_lookup.
Qed.

(** *** One worker *)

Lemma single_lookup (ws : list Worker) (i : nat) (w : Worker) :
  length ws = 1 -> ws !! i = Some w -> ws = [w] /\ i = 0.
Proof.
  destruct ws as [|w0 [|w1 ws]]; try done.
  destruct i as [|i]; [|done]. intros _ Hi. by simplify_eq/=.
Qed.

Lemma step_single_worker (jobs : list Request) (a : Action) (s s' : State) :
  length (workers s) = 1 -> whereabouts s = jobs ->
  step a s = Some s' ->
  length (workers s') = 1 /\ whereabouts s' = jobs.
Proof.
  intros Hone Hjobs Hstep. unfold whereabouts in *.
  destruct a; step_cases Hstep;
    try match goal with
        | Hi : workers s !! ?i = Some ?w |- _ =>
            destruct (single_lookup _ _ _ Hone Hi) as [Hws ->];
            rewrite Hws in *
        end;
    (split; [done|]); subst jobs; unfold held; simpl;
    rewrite ?map_app, ?app_nil_r, <- ?app_assoc; simpl; try done.
  match goal with
  | Hq : dnsqueue.SendQuery _ _ _ ?c ?r ?w = (?res, _, _) |- _ =>
      pose proof (ExecutorFacts.SendQuery_Req StringToType Quote network
                    c r w) as HReq;
      rewrite Hq in HReq; simpl in HReq
  end.
  by rewrite HReq.
Qed.

(** X14: a queue with one worker returns the results in the order of
    the requests: at every moment the requests of the results the caller
    has read are the first requests of the batch, and at the end they
    are the batch. *)
Theorem single_worker_results_in_request_order (size0 : nat)
    (jobs : list Request) (schedule : list Action) (s : State) :
  run schedule (StartQueue size0 1 jobs) = Some s ->
  map Req (currentNsResults s) `prefix_of` jobs
  /\ (phase s = Finished -> map Req (currentNsResults s) = jobs).
Proof.
  intros Hrun.
  assert (Hs : length (workers s) = 1 /\ whereabouts s = jobs).
  { assert (Hinit : length (workers (StartQueue size0 1 jobs)) = 1
                    /\ whereabouts (StartQueue size0 1 jobs) = jobs) by done.
    revert Hinit Hrun. generalize (StartQueue size0 1 jobs).
    induction schedule as [|a schedule IH]; intros s0 Hs0 Hrun;
      simpl in Hrun.
    - by injection Hrun as <-.
    - destruct (step a s0) as [s1|] eqn:Hstep; [|done].
      destruct Hs0 as [Hone Hjobs].
      apply (IH s1); [|done]. by eapply step_single_worker. }
  destruct Hs as [_ Hjobs].
  split.
  - rewrite <- Hjobs. unfold whereabouts. by eexists.
  - intros Hphase.
    pose proof (run_Inv StringToType Quote network _ _ _ _ _ _
                  (StartQueue_Inv size0 1 jobs) Hrun) as HInv.
    destruct (Finished_empty _ _ _ _ HInv Hphase)
      as (HResults & Hheld & HRequests & Htodo & _).
    rewrite <- Hjobs. unfold whereabouts.
    by rewrite HResults, Hheld, HRequests, Htodo, !app_nil_r.
Qed.

End Queue.

Lemma SendQuery_known_type_witness :
  ExecutorDefs.someTypes (RecordType signedRequest) = Some 1%Z
  /\ (dnsqueue.SendQuery ExecutorDefs.someTypes ExecutorDefs.quotePlain
        ExecutorDefs.timesOut (Some Background) signedRequest []).2
     = [{| ex_ctx := Some Background;
           ex_msg := {| Edns0 := Some (4096%Z, true);
                        Question := Some ("example.com.", 1%Z) |};
           ex_address := "8.8.8.8:53" |}]
  /\ exists err,
       (dnsqueue.SendQuery ExecutorDefs.someTypes ExecutorDefs.quotePlain
          ExecutorDefs.timesOut (Some Background) signedRequest []).1
       = ({| Req := signedRequest; Duration := 2000000000; Answers := [];
             Error := err |}, Some err)
       /\ err <> "".
Proof.
  split; [reflexivity|].
  exact (SendQuery_known_type ExecutorDefs.someTypes ExecutorDefs.quotePlain
           ExecutorDefs.timesOut (Some Background) signedRequest [] 1%Z
           eq_refl).
Defined.


Lemma queue_completes_batch_that_fits_witness :
  exists s,
    dnsqueue.run ExecutorDefs.someTypes ExecutorDefs.quotePlain everyOther
                 [Submit; Serve 0] (StartQueue 1 2 threeJobs)
    = Some s
    /\ exists schedule' s',
         dnsqueue.run ExecutorDefs.someTypes ExecutorDefs.quotePlain
                      everyOther ([Submit; Serve 0] ++ schedule')
                      (StartQueue 1 2 threeJobs)
         = Some s'
         /\ phase s' = Finished
         /\ map Req (currentNsResults s') ≡ₚ threeJobs.
Proof.
  eexists. split; [vm_compute; reflexivity|].
  exact (proj2 (queue_completes_batch_that_fits
                  ExecutorDefs.someTypes ExecutorDefs.quotePlain everyOther
                  1 2 threeJobs [Submit; Serve 0] _
                  ltac:(lia) ltac:(lia) ltac:(vm_compute; lia) eq_refl)).
Defined.

Lemma sends_never_block_when_batch_fits_channel_witness :
  exists s,
    dnsqueue.run ExecutorDefs.someTypes ExecutorDefs.quotePlain everyOther
                 [Submit; Serve 0] (StartQueue 3 2 threeJobs)
    = Some s
    /\ (exists s',
          dnsqueue.step ExecutorDefs.someTypes ExecutorDefs.quotePlain
                        everyOther Submit s = Some s')
    /\ exists s',
         dnsqueue.step ExecutorDefs.someTypes ExecutorDefs.quotePlain
                       everyOther (Publish 0) s = Some s'.
Proof.
  eexists. split; [vm_compute; reflexivity|].
  match goal with
  | |- (exists s', dnsqueue.step _ _ _ _ ?final = _) /\ _ =>
      pose proof (sends_never_block_when_batch_fits_channel
                    ExecutorDefs.someTypes ExecutorDefs.quotePlain everyOther
                    3 2 threeJobs [Submit; Serve 0] final
                    ltac:(vm_compute; lia) eq_refl)
        as [Hsubmit Hpublish]
  end.
  split; [apply Hsubmit; discriminate|].
  eapply Hpublish. reflexivity.
Defined.

Lemma oversized_batch_is_never_collected_witness :
  exists s,
    dnsqueue.run ExecutorDefs.someTypes ExecutorDefs.quotePlain everyOther
                 fillingSchedule (StartQueue 1 1 tenJobs)
    = Some s
    /\ phase s = Dispatching /\ closed s = false /\ todo s <> []
    /\ currentNsResults s = []
    /\ length fillingSchedule <= 4 * length tenJobs + 1 + 2.
Proof.
  eexists. split; [vm_compute; reflexivity|].
  match goal with
  | |- phase ?final = _ /\ _ =>
      exact (oversized_batch_is_never_collected
               ExecutorDefs.someTypes ExecutorDefs.quotePlain everyOther
               1 1 tenJobs fillingSchedule final
               ltac:(vm_compute; lia) ltac:(vm_compute; reflexivity))
  end.
Defined.

Lemma workers_return_after_batch_witness :
  exists s,
    dnsqueue.run ExecutorDefs.someTypes ExecutorDefs.quotePlain everyOther
                 (exampleSchedule ++ [Return 1; Return 0])
                 (StartQueue 1 2 threeJobs)
    = Some s
    /\ workers s = [Returned; Returned]
    /\ Requests s = [] /\ Results s = [] /\ held (workers s) = [].
Proof.
  eexists. split; [vm_compute; reflexivity|].
  split; [reflexivity|].
  match goal with
  | |- Requests ?final = _ /\ _ =>
      pose proof (workers_return_after_batch
                    ExecutorDefs.someTypes ExecutorDefs.quotePlain everyOther
                    1 2 threeJobs (exampleSchedule ++ [Return 1; Return 0])
                    final eq_refl eq_refl)
        as (HRequests & HResults & Hheld & _)
  end.
  split; [exact HRequests|]. split; [exact HResults|exact Hheld].
Defined.

Lemma single_worker_results_in_request_order_witness :
  exists s,
    dnsqueue.run ExecutorDefs.someTypes ExecutorDefs.quotePlain everyOther
                 singleWorkerSchedule (StartQueue 1 1 threeJobs)
    = Some s
    /\ phase s = Finished
    /\ map Req (currentNsResults s) = threeJobs.
Proof.
  eexists. split; [vm_compute; reflexivity|].
  split; [reflexivity|].
  match goal with
  | |- map Req (currentNsResults ?final) = _ =>
      exact (proj2 (single_worker_results_in_request_order
                      ExecutorDefs.someTypes ExecutorDefs.quotePlain
                      everyOther 1 threeJobs singleWorkerSchedule final
                      eq_refl) eq_refl)
  end.
Defined.

End QueueFacts.

(** ** The summary of a run *)

Module SummaryFacts.
Import dnsqueue namebench SortDefs ReportDefs PoolDefs SummaryDefs.
Import SortFacts ReportFacts PoolFacts.
Local Open Scope Z_scope.

(** *** The counts of an entry *)

Lemma filter_successful_all (results : list Result) :
  length (List.filter successful results) = length results
  <-> Forall (fun result => Error result = "") results.
Proof.
  induction results as [|r results IH]; simpl; [by split|].
  pose proof (List.filter_length_le successful results) as Hle.
  destruct (successful r) eqn:He; unfold successful in He; simpl.
  - apply String.eqb_eq in He. split.
    + intros Hlen. constructor; [done|]. apply IH. lia.
    + intros Hall. inversion Hall; subst. f_equal. by apply IH.
  - apply String.eqb_neq in He. split; [lia|].
    intros Hall. by inversion Hall.
Qed.

(** X15: when the caller has read the results of a nameserver, the entry
    of the summary made of them counts one query for each selected
    domain; its successful queries are the results without an error
    description, between none and all of them, and all of them exactly
    when no query failed.  Every result is one of the nameserver and the
    record type that were asked for. *)
Theorem benchmark_entry_counts
    (StringToType : string -> option Z) (Quote : string -> string)
    (network : nat -> Context -> Msg -> string -> ExchangeReply)
    (size0 workers0 : nat) (benchmarkCtx : Context)
    (ns record_type : string) (dnssec : bool)
    (selectedDomains : list string) (schedule : list Action) (s : State) :
  run StringToType Quote network schedule
      (StartQueue size0 workers0
         (cliJobs benchmarkCtx ns record_type dnssec selectedDomains))
  = Some s ->
  phase s = Finished ->
  let entry := summaryEntry ns (currentNsResults s) in
  TotalQueries entry = Z.of_nat (length selectedDomains)
  /\ 0 <= SuccessfulQueries entry <= TotalQueries entry
  /\ (SuccessfulQueries entry = TotalQueries entry
      <-> Forall (fun result => Error result = "") (currentNsResults s))
  /\ Forall (fun result =>
               Destination (Req result) = ns
               /\ RecordType (Req result) = record_type
               /\ VerifySignature (Req result) = dnssec)
            (currentNsResults s).
Proof.
  intros Hrun Hphase entry.
  pose proof (run_Inv StringToType Quote network _ _ _ _ _ _
                (StartQueue_Inv _ _ _) Hrun) as HInv.
  destruct (Inv_received _ _ _ _ HInv) as [_ Hall].
  destruct (Hall Hphase) as [Hlen Hperm].
  unfold cliJobs in Hlen. rewrite length_map in Hlen.
  assert (Htotal : TotalQueries entry = Z.of_nat (length selectedDomains)).
  { unfold entry, summaryEntry. simpl. by rewrite Hlen. }
  pose proof (summaryEntry_SuccessfulQueries ns (currentNsResults s))
    as Hcount. fold entry in Hcount.
  pose proof (List.filter_length_le successful (currentNsResults s)) as Hle.
  split; [done|]. split; [lia|]. split.
  - rewrite <- filter_successful_all. lia.
  - apply Forall_forall. intros result Hresult.
    assert (Hin : Req result ∈ map Req (currentNsResults s)).
    { apply list_elem_of_fmap. by exists result. }
    rewrite Hperm in Hin. unfold cliJobs in Hin.
    apply list_elem_of_fmap in Hin as (domain & -> & _). done.
Qed.

Lemma benchmark_entry_counts_witness :
  exists s,
    run ExecutorDefs.someTypes ExecutorDefs.quotePlain everyOther
        exampleSchedule
        (StartQueue 1 2
           (cliJobs (Some Background) "8.8.8.8:53" "A" false exampleDomains))
    = Some s
    /\ phase s = Finished
    /\ TotalQueries (summaryEntry "8.8.8.8:53" (currentNsResults s)) = 3
    /\ SuccessfulQueries (summaryEntry "8.8.8.8:53" (currentNsResults s)) = 2.
Proof.
  eexists. split; [vm_compute; reflexivity|].
  split; [reflexivity|].
  match goal with
  | |- TotalQueries (summaryEntry _ (currentNsResults ?final)) = _ /\ _ =>
      pose proof (benchmark_entry_counts
                    ExecutorDefs.someTypes ExecutorDefs.quotePlain everyOther
                    1 2 (Some Background) "8.8.8.8:53" "A" false
                    exampleDomains exampleSchedule final eq_refl eq_refl)
        as [Htotal _]
  end.
  split; [exact Htotal|reflexivity].
Defined.

(** *** The mean of an entry *)




(** *** One entry for each nameserver *)

Lemma allResults_lookup (batches : list (string * list Result))
    (m : gmap string (list Result)) (ns : string) :
  fold_left (fun m batch => <[batch.1 := batch.2]> m) batches m !! ns
  = match lastBatch ns batches with
    | Some results => Some results
    | None => m !! ns
    end.
Proof.
  revert m. induction batches as [|batch rest IH]; intros m; simpl; [done|].
  rewrite IH. destruct (lastBatch ns rest); [done|].
  destruct (String.eqb_spec batch.1 ns) as [<-|Hne].
  - by rewrite lookup_insert_eq.
  - by rewrite lookup_insert_ne.
Qed.

Lemma lastBatch_is_Some (batches : list (string * list Result))
    (ns : string) :
  is_Some (lastBatch ns batches) <-> ns ∈ map fst batches.
Proof.
  induction batches as [|batch rest IH]; simpl.
  - split; [by intros [? ?]|by intros ?%elem_of_nil].
  - rewrite elem_of_cons, <- IH.
    destruct (lastBatch ns rest) as [results|].
    + split; [by right|by eexists].
    + destruct (String.eqb_spec batch.1 ns) as [<-|Hne].
      * split; [by left|by eexists].
      * split; [by intros [? ?]|].
        intros [->|[? ?]]; done.
Qed.

Lemma sortedNameservers_elem_of (m : gmap string (list Result))
    (ns : string) :
  ns ∈ sortedNameservers m <-> is_Some (m !! ns).
Proof.
  unfold sortedNameservers, sort_Strings.
  rewrite (insertionSort_Permutation String.ltb).
  rewrite list_elem_of_fmap. split.
  - intros ([ns' results] & -> & Hin). simpl.
    apply elem_of_map_to_list in Hin. by eexists.
  - intros [results Hresults]. exists (ns, results). split; [done|].
    by apply elem_of_map_to_list.
Qed.

Lemma summaryData_names (m : gmap string (list Result)) :
  map Nameserver (summaryData m) = sortedNameservers m.
Proof.
  unfold summaryData. rewrite map_map. simpl. apply map_id.
Qed.

(** X17: the summary has one entry for each nameserver that was tested,
    however often it stands in the list: the names of the entries are
    the names of the batches without a repetition, and the entry of a
    nameserver is made of the results of its last batch; those of an
    earlier batch of the same nameserver are in no entry. *)
Theorem summary_has_one_entry_per_nameserver
    (batches : list (string * list Result)) :
  NoDup (map Nameserver (summaryData (allResults batches)))
  /\ (forall ns,
        ns ∈ map Nameserver (summaryData (allResults batches))
        <-> ns ∈ map fst batches)
  /\ (forall entry,
        entry ∈ summaryData (allResults batches) ->
        exists results,
          lastBatch (Nameserver entry) batches = Some results
          /\ entry = summaryEntry (Nameserver entry) results).
Proof.
  rewrite summaryData_names.
  split; [|split].
  - unfold sortedNameservers, sort_Strings.
    rewrite (insertionSort_Permutation String.ltb).
    apply (NoDup_fst_map_to_list (allResults batches)).
  - intros ns. rewrite sortedNameservers_elem_of. unfold allResults.
    rewrite allResults_lookup, <- lastBatch_is_Some, lookup_empty.
    by destruct (lastBatch ns batches).
  - intros entry Hentry. unfold summaryData in Hentry.
    apply list_elem_of_fmap in Hentry as (ns & -> & Hns).
    apply sortedNameservers_elem_of in Hns as [results Hresults].
    rewrite Hresults. simpl. exists results. split; [|done].
    unfold allResults in Hresults.
    rewrite allResults_lookup, lookup_empty in Hresults.
    by destruct (lastBatch ns batches).
Qed.

(** *** The order of the ranking *)

(** X18: the function given to [sort.Slice] is an ordering of the kind
    the sort needs, whatever the means and the counts of the entries: no
    entry comes before itself, two entries are not each before the
    other, "before" is transitive, and so is "neither before the
    other". *)
Theorem less_is_a_strict_weak_order :
  (forall a, less a a = false)
  /\ (forall a b, less a b = true -> less b a = false)
  /\ (forall a b c, less a b = true -> less b c = true -> less a c = true)
  /\ (forall a b c,
        less a b = false /\ less b a = false ->
        less b c = false /\ less c b = false ->
        less a c = false /\ less c a = false).
Proof.
  pose proof less_StrictWeak as Hless.
  split; [apply (less_irrefl Hless)|].
  split; [apply (less_asym less Hless)|].
  split; [apply (less_trans Hless)|].
  intros a b c [Hab Hba] [Hbc Hcb].
  split; by eapply (less_incomparable Hless).
Qed.

(** *** The fastest nameservers *)

Lemma fastestLoop_no_success (fastestAvg : Q) (entries : list SummaryEntry) :
  Forall (fun entry => SuccessfulQueries entry = 0) entries ->
  fastestLoop fastestAvg entries = [].
Proof.
  induction 1 as [|entry entries Hentry _ IH]; simpl; [done|].
  rewrite Hentry, andb_false_r.
  by destruct (Qlt_bool fastestAvg (AverageMs entry) && _).
Qed.

Lemma Qeq_bool_refl (x : Q) : Qeq_bool x x = true.
Proof. apply Qeq_bool_iff. reflexivity. Qed.

(** On a ranked list the first entry is printed as fastest if it has a
    success; if it has none, no entry has one. *)
Lemma fastest_sorted (entries : list SummaryEntry) :
  StronglySorted (fun a b => less b a = false) entries ->
  Forall summaryInvariant entries ->
  (fastest entries = []
   <-> Forall (fun entry => SuccessfulQueries entry = 0) entries)
  /\ (forall first,
        head entries = Some first -> 0 < SuccessfulQueries first ->
        head (fastest entries) = Some first).
Proof.
  intros Hsorted Hinv.
  destruct entries as [|first rest]; [by split|].
  apply StronglySorted_inv in Hsorted as [_ Hfirst].
  pose proof Hinv as Hinv'.
  apply Forall_cons in Hinv' as [[Hcount Hzero] Hrest].
  unfold fastest. simpl. rewrite Qeq_bool_refl. simpl.
  destruct (Z.ltb_spec 0 (SuccessfulQueries first)) as [Hsome|Hnone].
  - split; [|by intros ? [= <-] _].
    split; [done|]. intros Hall. apply Forall_cons in Hall as [Hall _]. lia.
  - assert (Hall : Forall (fun entry => SuccessfulQueries entry = 0)
                          (first :: rest)).
    { constructor; [lia|].
      apply Forall_forall. intros b Hb.
      rewrite Forall_forall in Hfirst, Hrest.
      apply (not_less_no_success first b); auto; [by split|lia]. }
    unfold Qlt_bool.
    assert (Qle_bool (AverageMs first) (AverageMs first) = true) as ->.
    { apply Qle_bool_iff. apply Qle_refl. }
    simpl. apply Forall_cons in Hall as [Hf Hr].
    rewrite (fastestLoop_no_success _ _ Hr).
    split; [|intros ? [= <-]; lia].
    split; [|done]. intros _. by constructor.
Qed.

(** X19: the report names a fastest nameserver whenever one had a
    success: the list of the fastest is empty exactly when no nameserver
    of the ranking had a successful query, and a first nameserver of the
    ranking that had a success is the first one named. *)
Theorem fastest_named_when_some_success
    (pdqsort_large : (SummaryEntry -> SummaryEntry -> bool) ->
                     list SummaryEntry -> list SummaryEntry)
    (batches : list (string * list Result)) :
  sortsSlices pdqsort_large ->
  (fastest (ranked pdqsort_large batches) = []
   <-> Forall (fun entry => SuccessfulQueries entry = 0)
              (ranked pdqsort_large batches))
  /\ (forall first,
        head (ranked pdqsort_large batches) = Some first ->
        0 < SuccessfulQueries first ->
        head (fastest (ranked pdqsort_large batches)) = Some first).
Proof.
  intros Hlarge.
  destruct (sort_Slice_sortsSlices pdqsort_large Hlarge less
              (summaryData (allResults batches)) less_StrictWeak)
    as [Hperm Hsorted].
  fold (ranked pdqsort_large batches) in Hperm, Hsorted.
  apply fastest_sorted; [done|].
  rewrite Hperm. apply summaryData_invariant.
Qed.

Lemma fastest_named_when_some_success_witness :
  sortsSlices insertionSort_func
  /\ exists first,
       head (ranked insertionSort_func testedTwice) = Some first
       /\ (Nameserver first, SuccessfulQueries first, TotalQueries first)
          = ("1.1.1.1:53", 1, 1)
       /\ head (fastest (ranked insertionSort_func testedTwice))
          = Some first.
Proof.
  split; [exact insertionSort_sortsSlices|].
  eexists. split; [vm_compute; reflexivity|]. split; [reflexivity|].
  apply (proj2 (fastest_named_when_some_success insertionSort_func
                  testedTwice insertionSort_sortsSlices));
    vm_compute; reflexivity.
Defined.

End SummaryFacts.
